(** * LikeInk Designer: layout, placement and history core

    A shallow embedding of the placement engine ([arrangeObjectOnCanvas] with
    its nested helpers [clampRect], [subtractRect], [pruneContainedRects]),
    the reflow and fill-sheet routines and the undo/redo history manager of
    [src/js/designer.js].

    Numbers.  JavaScript numbers are modelled as exact rationals [Q]: the
    comparisons, [Math.max] and [Math.min] of the source are exact on them,
    and sums, differences and halvings are taken without rounding.  The
    doubles of JavaScript do round: there [(79 + w / 2) - w / 2] can fall
    short of [79] by one unit in the last place.  For that reason no
    statement below says that the box of an object which has been placed
    lies inside the safe area or clear of the boxes of its neighbours: the
    properties of the placement, of the reflow and of the fill loop are
    stated on what the code copies, clamps, compares, writes or counts.

    Objects.  A Fabric object is a record holding what the core reads and
    writes: its name, its position ([left]/[top] with the two origins), its
    scaled width and height and its rotation.  Fabric itself is not part of
    the repository; its [getScaledWidth] and [getScaledHeight] are the sides
    of the object before rotation, and its [getBoundingRect] is the
    axis-aligned box around the rotated object.  Objects live in a store
    indexed by references, so that the same object can be held by the canvas
    and by a local array at once, and [obj !== objToArrange] is reference
    comparison.

    Events.  [canvas.add] and [canvas.remove] run the handlers that
    [initCanvas] registers.  A promise is modelled by the step at which it
    settles; an [await] is taken as one step. *)

From Stdlib Require Import Ascii String.
From Stdlib Require Import QArith Qabs Qminmax Qround Lqa Lia ZArith.
From Stdlib Require Import List Bool Arith Sorted.
Import ListNotations.

Open Scope Q_scope.

(* ------------------------------------------------------------------ *)
(** ** Comparisons of JavaScript numbers *)

(** [a < b] *)
Definition Qltb (a b : Q) : bool := negb (Qle_bool b a).
(** [a >= b] *)
Definition Qgeb (a b : Q) : bool := Qle_bool b a.
(** [a > b] *)
Definition Qgtb (a b : Q) : bool := Qltb b a.

(* ------------------------------------------------------------------ *)
(** ** Rectangles *)

Record Rect : Set := mkRect { left : Q; top : Q; right : Q; bottom : Q }.

(** Width and height as the source writes them: [rect.right - rect.left] and
    [rect.bottom - rect.top]. *)
Definition rectWidth (rect : Rect) : Q := right rect - left rect.
Definition rectHeight (rect : Rect) : Q := bottom rect - top rect.

(** The point [(x, y)] lies in the closed rectangle. *)
Definition inside (rect : Rect) (x y : Q) : Prop :=
  left rect <= x /\ x <= right rect /\ top rect <= y /\ y <= bottom rect.

(** [inner] is a subset of [outer]. *)
Definition within (inner outer : Rect) : Prop :=
  left outer <= left inner /\ right inner <= right outer /\
  top outer <= top inner /\ bottom inner <= bottom outer.

(** The open interior of a rectangle, and the existence of a region of
    positive area common to two rectangles. *)
Definition interior (rect : Rect) (x y : Q) : Prop :=
  left rect < x /\ x < right rect /\ top rect < y /\ y < bottom rect.

Definition positiveOverlap (a b : Rect) : Prop :=
  exists x y, interior a x y /\ interior b x y.

(** The test of [pruneContainedRects]: [other] contains [rect]. *)
Definition containsRect (other rect : Rect) : bool :=
  Qle_bool (left other) (left rect) && Qle_bool (top other) (top rect) &&
  Qgeb (right other) (right rect) && Qgeb (bottom other) (bottom rect).

(** The rectangle [intersection] computed at the head of [subtractRect]. *)
Definition intersection (freeRect blockerRect : Rect) : Rect :=
  {| left := Qmax (left freeRect) (left blockerRect);
     top := Qmax (top freeRect) (top blockerRect);
     right := Qmin (right freeRect) (right blockerRect);
     bottom := Qmin (bottom freeRect) (bottom blockerRect) |}.

(** [intersection.left >= intersection.right ||
     intersection.top >= intersection.bottom]:
    the two rectangles share no region of positive area. *)
Definition degenerate (i : Rect) : bool :=
  Qgeb (left i) (right i) || Qgeb (top i) (bottom i).

(** Helper [clampRect] of [arrangeObjectOnCanvas]; [null] is [None]. *)
Definition clampRect (rect bounds : Rect) : option Rect :=
  let clampedRect :=
    {| left := Qmax (left rect) (left bounds);
       top := Qmax (top rect) (top bounds);
       right := Qmin (right rect) (right bounds);
       bottom := Qmin (bottom rect) (bottom bounds) |} in
  if Qgeb (left clampedRect) (right clampedRect)
     || Qgeb (top clampedRect) (bottom clampedRect)
  then None
  else Some clampedRect.

(** The array [result] of [subtractRect] as it stands before the final
    [filter]: the top, bottom, left and right remainders, in push order. *)
Definition remainders (freeRect blockerRect : Rect) : list Rect :=
  let i := intersection freeRect blockerRect in
  let result := [] in
  let result :=
    if Qltb (top freeRect) (top i)
    then result ++ [ {| left := left freeRect; top := top freeRect;
                        right := right freeRect; bottom := top i |} ]
    else result in
  let result :=
    if Qltb (bottom i) (bottom freeRect)
    then result ++ [ {| left := left freeRect; top := bottom i;
                        right := right freeRect; bottom := bottom freeRect |} ]
    else result in
  let middleTop := Qmax (top freeRect) (top i) in
  let middleBottom := Qmin (bottom freeRect) (bottom i) in
  if Qgtb middleBottom middleTop then
    let result :=
      if Qltb (left freeRect) (left i)
      then result ++ [ {| left := left freeRect; top := middleTop;
                          right := left i; bottom := middleBottom |} ]
      else result in
    let result :=
      if Qltb (right i) (right freeRect)
      then result ++ [ {| left := right i; top := middleTop;
                          right := right freeRect; bottom := middleBottom |} ]
      else result in
    result
  else result.

(** The predicate of the final [filter] of [subtractRect]. *)
Definition notSliver (rect : Rect) : bool :=
  Qgtb (right rect - left rect) 1 && Qgtb (bottom rect - top rect) 1.

(** Helper [subtractRect] of [arrangeObjectOnCanvas]. *)
Definition subtractRect (freeRect blockerRect : Rect) : list Rect :=
  if degenerate (intersection freeRect blockerRect)
  then [freeRect]
  else filter notSliver (remainders freeRect blockerRect).

(** [Array.prototype.filter] and [some] pass the index along with the
    element. *)
Definition indexed {A : Type} (l : list A) : list (nat * A) :=
  combine (seq 0 (length l)) l.

(** The callback of [rects.filter] in [pruneContainedRects]: no rectangle at
    another index contains [rect]. *)
Definition keeps (rects : list Rect) (p : nat * Rect) : bool :=
  let '(index, rect) := p in
  negb (existsb
          (fun '(otherIdx, other) =>
             if Nat.eqb index otherIdx then false
             else containsRect other rect)
          (indexed rects)).

(** Helper [pruneContainedRects] of [arrangeObjectOnCanvas]. *)
Definition pruneContainedRects (rects : list Rect) : list Rect :=
  map snd (filter (keeps rects) (indexed rects)).

(** Lines 3426-3448 of [arrangeObjectOnCanvas]: the free-rectangle list.
    [gutterBox] is the object literal [blocker], [blockOut] the body of
    [blockers.forEach], and [computeFreeSpace] the list after
    [pruneContainedRects]. *)
Record Bounds : Set :=
  mkBounds { boundsLeft : Q; boundsTop : Q; boundsWidth : Q; boundsHeight : Q }.

Definition gutterBox (gutter : Q) (bounds : Bounds) : Rect :=
  {| left := boundsLeft bounds - gutter;
     top := boundsTop bounds - gutter;
     right := boundsLeft bounds + boundsWidth bounds + gutter;
     bottom := boundsTop bounds + boundsHeight bounds + gutter |}.

Definition blockOut (gutter : Q) (safeRect : Rect)
    (freeRects : list Rect) (bounds : Bounds) : list Rect :=
  match clampRect (gutterBox gutter bounds) safeRect with
  | Some clampedBlocker =>
      flat_map (fun rect => subtractRect rect clampedBlocker) freeRects
  | None => freeRects
  end.

Definition computeFreeSpace (gutter : Q) (safeRect : Rect)
    (occupied : list Bounds) : list Rect :=
  pruneContainedRects (fold_left (blockOut gutter safeRect) occupied [safeRect]).

(** The comparator of [freeRects.sort]:
    [(a.top - b.top) || (a.left - b.left)]. *)
Definition compareRects (a b : Rect) : Q :=
  let d := top a - top b in
  if Qeq_bool d 0 then left a - left b else d.

(** [Array.prototype.sort] is stable: an element is inserted in front of the
    first element that the comparator does not put before it. *)
Fixpoint insertRect (a : Rect) (l : list Rect) : list Rect :=
  match l with
  | [] => [a]
  | b :: l' =>
      if Qle_bool (compareRects a b) 0 then a :: b :: l'
      else b :: insertRect a l'
  end.

Definition sortRects (l : list Rect) : list Rect :=
  fold_right insertRect [] l.

(** The predicate of [freeRects.find]. *)
Definition fits (targetWidth targetHeight : Q) (rect : Rect) : bool :=
  let width := right rect - left rect in
  let height := bottom rect - top rect in
  Qgeb width targetWidth && Qgeb height targetHeight.

(* ------------------------------------------------------------------ *)
(** ** Fabric objects and the canvas *)

Inductive OriginX : Set := OriginLeft | OriginCenterX | OriginRight.
Inductive OriginY : Set := OriginTop | OriginCenterY | OriginBottom.

(** The rotation of an object.  Fabric keeps [angle] in degrees and works
    with its cosine and sine, which are all that the position of the centre
    and the bounding box depend on. *)
Record Rotation : Set := mkRotation { cosine : Q; sine : Q }.

(** [angle: 0] and [angle: 90]. *)
Definition upright : Rotation := mkRotation 1 0.
Definition quarterTurn : Rotation := mkRotation 0 1.

(** What the core reads and writes of a Fabric object.  The user turns an
    object with the rotation handle of its controls; the core never writes
    [angle]. *)
Record FabricObject : Set := mkObject {
  name : string;
  objLeft : Q;
  objTop : Q;
  originX : OriginX;
  originY : OriginY;
  scaledWidth : Q;
  scaledHeight : Q;
  angle : Rotation
}.

(** The sides of the object before rotation. *)
Definition getScaledWidth (obj : FabricObject) : Q := scaledWidth obj.
Definition getScaledHeight (obj : FabricObject) : Q := scaledHeight obj.

(** The way from the origin to the centre in units of the side: [0.5] for
    ['left'] and ['top'], [0] for ['center'], [-0.5] for ['right'] and
    ['bottom']. *)
Definition originOffsetX (o : OriginX) : Q :=
  match o with
  | OriginLeft => 1 # 2
  | OriginCenterX => 0
  | OriginRight => - (1 # 2)
  end.

Definition originOffsetY (o : OriginY) : Q :=
  match o with
  | OriginTop => 1 # 2
  | OriginCenterY => 0
  | OriginBottom => - (1 # 2)
  end.

(** Fabric's [getCenterPoint]: [(left, top)] is where the origin of the
    object lies, and the way from there to the centre turns with the
    object. *)
Definition getCenterPoint (obj : FabricObject) : Q * Q :=
  let dx := originOffsetX (originX obj) * scaledWidth obj in
  let dy := originOffsetY (originY obj) * scaledHeight obj in
  (objLeft obj + (dx * cosine (angle obj) - dy * sine (angle obj)),
   objTop obj + (dx * sine (angle obj) + dy * cosine (angle obj))).

(** Fabric's [getBoundingRect]: the axis-aligned box around the four corners
    of the rotated object.  It is centred on the centre point, and its sides
    are [|w cos| + |h sin|] and [|w sin| + |h cos|]. *)
Definition getBoundingRect (obj : FabricObject) : Bounds :=
  let center := getCenterPoint obj in
  let boxWidth :=
    Qabs (scaledWidth obj * cosine (angle obj))
    + Qabs (scaledHeight obj * sine (angle obj)) in
  let boxHeight :=
    Qabs (scaledWidth obj * sine (angle obj))
    + Qabs (scaledHeight obj * cosine (angle obj)) in
  {| boundsLeft := fst center - boxWidth / 2;
     boundsTop := snd center - boxHeight / 2;
     boundsWidth := boxWidth;
     boundsHeight := boxHeight |}.

(** [obj.set({ left, top, originX: 'center', originY: 'center' })]. *)
Definition setCentered (x y : Q) (obj : FabricObject) : FabricObject :=
  {| name := name obj;
     objLeft := x;
     objTop := y;
     originX := OriginCenterX;
     originY := OriginCenterY;
     scaledWidth := scaledWidth obj;
     scaledHeight := scaledHeight obj;
     angle := angle obj |}.

Definition isBleedObject (obj : FabricObject) : bool :=
  String.eqb (name obj) "bleedOverlay" || String.eqb (name obj) "bleedArea".

(** References to objects; [obj !== objToArrange] compares references. *)
Definition Ref : Set := nat.

Record Canvas : Set := mkCanvas {
  objects : list Ref;   (* canvas.getObjects(), back to front *)
  width : Q;
  height : Q;
  zoom : Q
}.

(** The module-level state of designer.js that the core touches. *)
Record Designer : Type := mkDesigner {
  canvas : option Canvas;         (* [let canvas;] is undefined before init *)
  heap : Ref -> FabricObject;     (* the objects behind the references *)
  nextRef : Ref;                  (* the next reference [new] hands out *)
  undoStack : list string;
  redoStack : list string;
  isRestoring : bool;
  saveStateTimeout : bool;        (* a debounce timer is armed *)
  loading : list string           (* [loadFromJSON] promises not yet settled *)
}.

(** Field updates of the module state. *)
Definition setCanvas (c : option Canvas) (d : Designer) : Designer :=
  mkDesigner c (heap d) (nextRef d) (undoStack d) (redoStack d)
             (isRestoring d) (saveStateTimeout d) (loading d).

Definition setHeap (h : Ref -> FabricObject) (d : Designer) : Designer :=
  mkDesigner (canvas d) h (nextRef d) (undoStack d) (redoStack d)
             (isRestoring d) (saveStateTimeout d) (loading d).

Definition setNextRef (n : Ref) (d : Designer) : Designer :=
  mkDesigner (canvas d) (heap d) n (undoStack d) (redoStack d)
             (isRestoring d) (saveStateTimeout d) (loading d).

Definition setUndoStack (u : list string) (d : Designer) : Designer :=
  mkDesigner (canvas d) (heap d) (nextRef d) u (redoStack d)
             (isRestoring d) (saveStateTimeout d) (loading d).

Definition setRedoStack (r : list string) (d : Designer) : Designer :=
  mkDesigner (canvas d) (heap d) (nextRef d) (undoStack d) r
             (isRestoring d) (saveStateTimeout d) (loading d).

Definition setIsRestoring (b : bool) (d : Designer) : Designer :=
  mkDesigner (canvas d) (heap d) (nextRef d) (undoStack d) (redoStack d)
             b (saveStateTimeout d) (loading d).

Definition setSaveStateTimeout (b : bool) (d : Designer) : Designer :=
  mkDesigner (canvas d) (heap d) (nextRef d) (undoStack d) (redoStack d)
             (isRestoring d) b (loading d).

Definition setLoading (l : list string) (d : Designer) : Designer :=
  mkDesigner (canvas d) (heap d) (nextRef d) (undoStack d) (redoStack d)
             (isRestoring d) (saveStateTimeout d) l.

Definition setObjects (l : list Ref) (c : Canvas) : Canvas :=
  mkCanvas l (width c) (height c) (zoom c).

(** Writes [obj] at reference [r]. *)
Definition store (r : Ref) (obj : FabricObject)
    (h : Ref -> FabricObject) : Ref -> FabricObject :=
  fun r' => if Nat.eqb r' r then obj else h r'.

(** [new fabric.Rect(...)] and [clone()] hand out a fresh reference. *)
Definition allocate (obj : FabricObject) (d : Designer) : Ref * Designer :=
  (nextRef d, setNextRef (S (nextRef d)) (setHeap (store (nextRef d) obj (heap d)) d)).

(* ------------------------------------------------------------------ *)
(** ** Constants *)

Definition BLEED_MM : Q := 5.
Definition MM_TO_PIXELS : Q := 300 / 25.4.
(** [Math.round(BLEED_MM * MM_TO_PIXELS)] *)
Definition BLEED_PIXELS : Q :=
  Eval vm_compute in inject_Z (Qfloor (BLEED_MM * MM_TO_PIXELS + (1 # 2))).
Definition PLACEMENT_PADDING : Q := 20.
Definition PLACEMENT_GUTTER : Q := 12.
Definition MAX_HISTORY : nat := 20.

(* ------------------------------------------------------------------ *)
(** ** Canvas operations and their event handlers *)

(** [canvas.getZoom() || 1] *)
Definition zoomOr1 (c : Canvas) : Q :=
  if Qeq_bool (zoom c) 0 then 1 else zoom c.

Definition virtualWidth (c : Canvas) : Q := width c / zoomOr1 c.
Definition virtualHeight (c : Canvas) : Q := height c / zoomOr1 c.

(** The object literal [safeRect] of [arrangeObjectOnCanvas] and of
    [reflowObjectsIntoSafeArea]. *)
Definition safeRectOf (c : Canvas) : Rect :=
  {| left := BLEED_PIXELS + PLACEMENT_PADDING;
     top := BLEED_PIXELS + PLACEMENT_PADDING;
     right := virtualWidth c - BLEED_PIXELS - PLACEMENT_PADDING;
     bottom := virtualHeight c - BLEED_PIXELS - PLACEMENT_PADDING |}.

(** [safeRect.right <= safeRect.left || safeRect.bottom <= safeRect.top] *)
Definition invalidSafeRect (safeRect : Rect) : bool :=
  Qle_bool (right safeRect) (left safeRect)
  || Qle_bool (bottom safeRect) (top safeRect).

Definition getUserObjects (h : Ref -> FabricObject) (c : Canvas) : list Ref :=
  filter (fun obj => negb (isBleedObject (h obj))) (objects c).

(** [saveState]: arms the debounce timer unless a restore is under way. *)
Definition saveState (d : Designer) : Designer :=
  match canvas d with
  | None => d
  | Some _ => if isRestoring d then d else setSaveStateTimeout true d
  end.

(** Removes the first occurrence of [obj], as [indexOf] and [splice] do. *)
Fixpoint removeFirst (obj : Ref) (l : list Ref) : list Ref :=
  match l with
  | [] => []
  | x :: l' => if Nat.eqb x obj then l' else x :: removeFirst obj l'
  end.

Definition memRef (obj : Ref) (l : list Ref) : bool :=
  existsb (Nat.eqb obj) l.

(** [canvas.bringObjectToFront(obj)] *)
Definition bringObjectToFront (obj : Ref) (c : Canvas) : Canvas :=
  if memRef obj (objects c)
  then setObjects (removeFirst obj (objects c) ++ [obj]) c
  else c.

Definition bringBleedObjectsToFront (d : Designer) : Designer :=
  if isRestoring d then d
  else
    match canvas d with
    | None => d
    | Some c =>
        let bleed := filter (fun obj => isBleedObject (heap d obj)) (objects c) in
        setCanvas (Some (fold_left (fun c obj => bringObjectToFront obj c) bleed c)) d
    end.

(** [canvas.add(obj)], followed by the handlers of ['object:added'] in the
    order in which [initCanvas] registers them. *)
Definition canvasAdd (obj : Ref) (d : Designer) : Designer :=
  match canvas d with
  | None => d
  | Some c =>
      let d := setCanvas (Some (setObjects (objects c ++ [obj]) c)) d in
      saveState (bringBleedObjectsToFront d)
  end.

(** [canvas.remove(obj)], followed by the handler of ['object:removed'],
    which fires only when the object was on the canvas. *)
Definition canvasRemove (obj : Ref) (d : Designer) : Designer :=
  match canvas d with
  | None => d
  | Some c =>
      if memRef obj (objects c)
      then saveState (setCanvas (Some (setObjects (removeFirst obj (objects c)) c)) d)
      else d
  end.

(* ------------------------------------------------------------------ *)
(** ** The placement engine *)

(** [arrangeObjectOnCanvas(objToArrange)]: the new module state and the
    boolean the function returns. *)
Definition arrangeObjectOnCanvas (objToArrange : option Ref) (d : Designer)
    : Designer * bool :=
  match canvas d, objToArrange with
  | Some c, Some o =>
      let safeRect := safeRectOf c in
      if invalidSafeRect safeRect then
        (setHeap (store o (setCentered (virtualWidth c / 2) (virtualHeight c / 2)
                                       (heap d o)) (heap d)) d,
         false)
      else
        let targetWidth := getScaledWidth (heap d o) in
        let targetHeight := getScaledHeight (heap d o) in
        let blockers :=
          filter (fun obj => negb (Nat.eqb obj o)) (getUserObjects (heap d) c) in
        let freeRects :=
          computeFreeSpace PLACEMENT_GUTTER safeRect
            (map (fun obj => getBoundingRect (heap d obj)) blockers) in
        let freeRects := sortRects freeRects in
        match find (fits targetWidth targetHeight) freeRects with
        | Some placementRect =>
            (setHeap (store o (setCentered (left placementRect + targetWidth / 2)
                                           (top placementRect + targetHeight / 2)
                                           (heap d o)) (heap d)) d,
             true)
        | None =>
            (setHeap (store o (setCentered ((left safeRect + right safeRect) / 2)
                                           ((top safeRect + bottom safeRect) / 2)
                                           (heap d o)) (heap d)) d,
             false)
        end
  | _, _ => (d, false)
  end.

(* ------------------------------------------------------------------ *)
(** ** Reflow *)

(** The predicate of the [filter] that builds [outOfBoundsObjects]. *)
Definition outOfBounds (safeRect : Rect) (obj : FabricObject) : bool :=
  let bounds := getBoundingRect obj in
  Qltb (boundsLeft bounds) (left safeRect)
  || Qltb (boundsTop bounds) (top safeRect)
  || Qgtb (boundsLeft bounds + boundsWidth bounds) (right safeRect)
  || Qgtb (boundsTop bounds + boundsHeight bounds) (bottom safeRect).

(** The array [outOfBoundsObjects]; its length is the number of objects the
    call repositions (and logs). *)
Definition outOfBoundsObjects (d : Designer) (c : Canvas) : list Ref :=
  filter (fun obj => outOfBounds (safeRectOf c) (heap d obj))
         (getUserObjects (heap d) c).

(** The body of the second [outOfBoundsObjects.forEach]: the state and the
    array [failedRepositions]. *)
Definition reflowOne (acc : Designer * list Ref) (obj : Ref)
    : Designer * list Ref :=
  let '(d, failedRepositions) := acc in
  let d := canvasAdd obj d in
  let '(d, placed) := arrangeObjectOnCanvas (Some obj) d in
  if placed then (d, failedRepositions) else (d, failedRepositions ++ [obj]).

(** [reflowObjectsIntoSafeArea()]: the new state and [failedRepositions]. *)
Definition reflowObjectsIntoSafeArea (d : Designer) : Designer * list Ref :=
  match canvas d with
  | None => (d, [])
  | Some c =>
      if invalidSafeRect (safeRectOf c) then (d, [])
      else
        let outOfBoundsObjects := outOfBoundsObjects d c in
        if Nat.eqb (List.length outOfBoundsObjects) 0 then (d, [])
        else
          let previousRestoringState := isRestoring d in
          let d := setIsRestoring true d in
          let d := fold_left (fun d obj => canvasRemove obj d) outOfBoundsObjects d in
          let '(d, failedRepositions) :=
            fold_left reflowOne outOfBoundsObjects (d, []) in
          let d := bringBleedObjectsToFront d in
          let d := setIsRestoring previousRestoringState d in
          let d := if negb previousRestoringState then saveState d else d in
          (d, failedRepositions)
  end.


(* ------------------------------------------------------------------ *)
(** ** Fill sheet *)

(** The body of the first [originals.forEach] of [fillSheet]: the state with
    the arrays [placedOriginals] and [failedOriginals]. *)
Definition arrangeOriginal (acc : Designer * list Ref * list Ref) (obj : Ref)
    : Designer * list Ref * list Ref :=
  let '(d, placedOriginals, failedOriginals) := acc in
  let d := canvasAdd obj d in
  let '(d, placed) := arrangeObjectOnCanvas (Some obj) d in
  if placed then (d, placedOriginals ++ [obj], failedOriginals)
  else (d, placedOriginals, failedOriginals ++ [obj]).

Section FillSheet.

(** [base.clone()], an operation of Fabric: the clone, or [None] when the
    promise rejects.  The [await] is taken as one step: no other handler
    runs between the request and the placement of the clone. *)
Variable clone : FabricObject -> option FabricObject.

(** The body of [for (const base of placedOriginals)]: the state and the
    counter [clonesPlacedInPass]. *)
Definition cloneOne (acc : Designer * nat) (base : Ref) : Designer * nat :=
  let '(d, clonesPlacedInPass) := acc in
  match clone (heap d base) with
  | Some cloned =>
      let '(c, d) := allocate cloned d in
      let d := canvasAdd c d in
      let '(d, placed) := arrangeObjectOnCanvas (Some c) d in
      if placed then (d, S clonesPlacedInPass)
      else (canvasRemove c d, clonesPlacedInPass)
  | None => (d, clonesPlacedInPass)   (* caught and logged *)
  end.

(** One round of the [do ... while] loop. *)
Definition fillPass (placedOriginals : list Ref) (d : Designer)
    : Designer * nat :=
  fold_left cloneOne placedOriginals (d, 0%nat).

(** The [do ... while (clonesPlacedInPass > 0)] loop.  [fuel] bounds the
    number of rounds; [None] means that the bound was reached with the loop
    still running. *)
Fixpoint fillLoop (fuel : nat) (placedOriginals : list Ref) (d : Designer)
    : option Designer :=
  match fuel with
  | O => None
  | S fuel' =>
      let '(d', clonesPlacedInPass) := fillPass placedOriginals d in
      if Nat.ltb 0 clonesPlacedInPass
      then fillLoop fuel' placedOriginals d'
      else Some d'
  end.


(** The [finally] block of [fillSheet]. *)
Definition fillSheetFinally (d : Designer) : Designer :=
  saveState (setIsRestoring false (bringBleedObjectsToFront d)).

(** The [try] block of [fillSheet] up to the loop: the originals are taken
    off the canvas and arranged again one by one. *)
Definition arrangeOriginals (userObjects : list Ref) (d : Designer)
    : Designer * list Ref * list Ref :=
  let originals := userObjects in
  let d := fold_left (fun d obj => canvasRemove obj d) originals d in
  fold_left arrangeOriginal originals (d, [], []).

(** [fillSheet()].  [None]: the loop did not end within [fuel] rounds. *)
Definition fillSheet (fuel : nat) (d : Designer) : option Designer :=
  match canvas d with
  | None => Some d   (* getUserObjects throws before anything is written *)
  | Some c =>
      let userObjects := getUserObjects (heap d) c in
      if Nat.eqb (List.length userObjects) 0 then Some d
      else
        let d := setIsRestoring true d in
        let '(d, placedOriginals, failedOriginals) :=
          arrangeOriginals userObjects d in
        if Nat.ltb 0 (List.length placedOriginals) then
          match fillLoop fuel placedOriginals d with
          | Some d => Some (fillSheetFinally d)
          | None => None
          end
        else Some (fillSheetFinally d)
  end.

End FillSheet.

(* ------------------------------------------------------------------ *)
(** ** History *)

(** [stack[stack.length - 1]]: the top of a stack kept in an array. *)
Definition top_of (stack : list string) : option string :=
  nth_error stack (List.length stack - 1).

(** [saveStateImmediate()].  [stringify objectsToSave] stands for
    [JSON.stringify({ version, objects: objectsToSave.map(toJSON) })], an
    operation of Fabric and of the JavaScript runtime. *)
Definition saveStateImmediate (stringify : list FabricObject -> string)
    (d : Designer) : Designer :=
  match canvas d with
  | None => d
  | Some c =>
      if isRestoring d then d
      else
        let objectsToSave := getUserObjects (heap d) c in
        let state := stringify (map (heap d) objectsToSave) in
        let unchanged :=
          match top_of (undoStack d) with
          | Some t => String.eqb t state
          | None => false   (* undoStack.length === 0 *)
          end in
        if unchanged then d
        else
          let undoStack := undoStack d ++ [state] in         (* push *)
          let undoStack :=
            if Nat.ltb MAX_HISTORY (List.length undoStack)
            then tl undoStack                                (* shift *)
            else undoStack in
          setRedoStack [] (setUndoStack undoStack d)
  end.

(** The callback that [saveState] hands to [setTimeout], run when the timer
    expires. *)
Definition saveStateTimerExpires (stringify : list FabricObject -> string)
    (d : Designer) : Designer :=
  if saveStateTimeout d
  then saveStateImmediate stringify (setSaveStateTimeout false d)
  else d.

(** [createBleedArea()]: the old decorations leave the canvas, the four
    overlays and the guide rectangle are added. *)
Definition bleedRects (c : Canvas) : list FabricObject :=
  let w := width c / zoom c in     (* canvas.width / canvas.getZoom() *)
  let h := height c / zoom c in
  [ mkObject "bleedOverlay" 0 0 OriginLeft OriginTop w BLEED_PIXELS upright;
    mkObject "bleedOverlay" 0 (h - BLEED_PIXELS) OriginLeft OriginTop
             w BLEED_PIXELS upright;
    mkObject "bleedOverlay" 0 BLEED_PIXELS OriginLeft OriginTop
             BLEED_PIXELS (h - BLEED_PIXELS * 2) upright;
    mkObject "bleedOverlay" (w - BLEED_PIXELS) BLEED_PIXELS OriginLeft OriginTop
             BLEED_PIXELS (h - BLEED_PIXELS * 2) upright;
    mkObject "bleedArea" BLEED_PIXELS BLEED_PIXELS OriginLeft OriginTop
             (w - BLEED_PIXELS * 2) (h - BLEED_PIXELS * 2) upright ].

(** [canvas.add(new ...)] *)
Definition addNew (d : Designer) (obj : FabricObject) : Designer :=
  let '(r, d) := allocate obj d in canvasAdd r d.

Definition createBleedArea (d : Designer) : Designer :=
  match canvas d with
  | None => d
  | Some c =>
      let old := filter (fun obj => isBleedObject (heap d obj)) (objects c) in
      let d := fold_left (fun d obj => canvasRemove obj d) old d in
      let d := fold_left addNew (bleedRects c) d in
      bringBleedObjectsToFront d
  end.

(** [restoreState(state)] up to the point where it returns: the flag is set
    and [canvas.loadFromJSON(state)] has been called; its promise is
    pending. *)
Definition restoreState (state : string) (d : Designer) : Designer :=
  setLoading (loading d ++ [state]) (setIsRestoring true d).

(** How the promise of [loadFromJSON] settles: fulfilled, with the objects it
    has put on the canvas, or rejected. *)
Inductive Settlement : Set :=
| Fulfilled (loaded : list FabricObject)
| Rejected.

(** The [.then] callback of [restoreState]. *)
Definition restoreStateThen (d : Designer) : Designer :=
  setIsRestoring false (createBleedArea d).

(** The oldest pending promise of [loadFromJSON] settles.  When it is
    fulfilled the canvas holds the loaded objects in place of the old ones and
    the [.then] callback runs; a rejection finds no handler, since
    [restoreState] registers none. *)
Definition loadFromJSONSettles (s : Settlement) (d : Designer) : Designer :=
  match loading d with
  | [] => d
  | _ :: pending =>
      let d := setLoading pending d in
      match s with
      | Fulfilled loaded =>
          let d :=
            match canvas d with
            | None => d
            | Some c => setCanvas (Some (setObjects [] c)) d
            end in
          restoreStateThen (fold_left addNew loaded d)
      | Rejected => d
      end
  end.

(** [undo()] *)
Definition undo (d : Designer) : Designer :=
  match rev (undoStack d) with
  | currentState :: previousState :: older =>
      let d := setUndoStack (rev (previousState :: older)) d in   (* pop *)
      let d := setRedoStack (redoStack d ++ [currentState]) d in
      restoreState previousState d
  | _ => d                                (* undoStack.length <= 1 *)
  end.

(** [redo()] *)
Definition redo (d : Designer) : Designer :=
  match rev (redoStack d) with
  | state :: older =>
      let d := setRedoStack (rev older) d in                      (* pop *)
      let d := setUndoStack (undoStack d ++ [state]) d in
      restoreState state d
  | [] => d                               (* redoStack.length === 0 *)
  end.

(* ------------------------------------------------------------------ *)
(** ** Predicates used in the statements *)

(** [r] shares no region of positive area with [b]. *)
Definition clearOf (r b : Rect) : Prop :=
  degenerate (intersection r b) = true.

(** A rectangle of positive width and height. *)
Definition proper (r : Rect) : Prop :=
  left r < right r /\ top r < bottom r.

(** What every rectangle of a free list satisfies with respect to the safe
    area and to the clamped blockers subtracted so far. *)
Definition freeInvariant (safeRect : Rect) (blockers : list Rect)
    (freeRects : list Rect) : Prop :=
  forall r, In r freeRects ->
    within r safeRect /\
    (proper safeRect -> proper r) /\
    (forall b, In b blockers -> clearOf r b).

(** The clamped gutter boxes of the occupied bounds. *)
Definition clampedBlockers (gutter : Q) (safeRect : Rect)
    (occupied : list Bounds) : list Rect :=
  flat_map (fun bounds =>
              match clampRect (gutterBox gutter bounds) safeRect with
              | Some c => [c]
              | None => []
              end) occupied.

(** The bounding rectangle as a [Rect]. *)
Definition boundsRect (bounds : Bounds) : Rect :=
  {| left := boundsLeft bounds;
     top := boundsTop bounds;
     right := boundsLeft bounds + boundsWidth bounds;
     bottom := boundsTop bounds + boundsHeight bounds |}.

Definition objectBox (obj : FabricObject) : Rect :=
  boundsRect (getBoundingRect obj).

(** The array [blockers] of [arrangeObjectOnCanvas] and the free list the
    function computes from it. *)
Definition blockersOf (d : Designer) (c : Canvas) (o : Ref) : list Ref :=
  filter (fun obj => negb (Nat.eqb obj o)) (getUserObjects (heap d) c).

Definition freeRectsOf (d : Designer) (c : Canvas) (o : Ref) : list Rect :=
  computeFreeSpace PLACEMENT_GUTTER (safeRectOf c)
    (map (fun obj => getBoundingRect (heap d obj)) (blockersOf d c o)).

(* ------------------------------------------------------------------ *)
(** ** A sample scene *)

(** An A5 sheet in landscape at 300 DPI and zoom 1, with a 400 x 300 image
    at the top-left corner of the safe area, a second image of the same size
    not yet arranged, and an image larger than the sheet. *)
Definition sampleHeap : Ref -> FabricObject :=
  fun r =>
    match r with
    | 0%nat => mkObject "" 279 229 OriginCenterX OriginCenterY 400 300 upright
    | 1%nat => mkObject "" 0 0 OriginLeft OriginTop 400 300 upright
    | _ => mkObject "" 0 0 OriginLeft OriginTop 3000 2000 upright
    end.

Definition sampleCanvas : Canvas := mkCanvas [0%nat; 1%nat] 2480 1748 1.

Definition sampleDesigner : Designer :=
  mkDesigner (Some sampleCanvas) sampleHeap 3%nat [] [] false false [].

(** The same sheet with objects that the user has turned by 90 degrees: next
    to the image at the corner of the safe area a strip of 100 x 300, and,
    on a sheet of its own, a banner of 400 x 100. *)
Definition turnedHeap : Ref -> FabricObject :=
  fun r =>
    match r with
    | 0%nat => mkObject "" 279 229 OriginCenterX OriginCenterY 400 300 upright
    | 1%nat => mkObject "" 0 0 OriginLeft OriginTop 100 300 quarterTurn
    | _ => mkObject "" 0 0 OriginLeft OriginTop 400 100 quarterTurn
    end.

Definition stripDesigner : Designer :=
  mkDesigner (Some sampleCanvas) turnedHeap 3%nat [] [] false false [].

Definition bannerCanvas : Canvas := mkCanvas [2%nat] 2480 1748 1.

Definition bannerDesigner : Designer :=
  mkDesigner (Some bannerCanvas) turnedHeap 3%nat [] [] false false [].

(* ------------------------------------------------------------------ *)
(** ** Sequences of captures *)

(** The [n] newest entries of a stack whose top is its last element. *)
Definition newest (n : nat) (stack : list string) : list string :=
  skipn (List.length stack - n) stack.

(** Each string of the sequence differs from the one before it, the first
    one from [before]. *)
Fixpoint eachDiffers (before : option string) (states : list string) : Prop :=
  match states with
  | [] => True
  | s :: rest => before <> Some s /\ eachDiffers (Some s) rest
  end.

(** The string that [saveStateImmediate] compares with the top of the undo
    stack. *)
Definition serialized (stringify : list FabricObject -> string)
    (h : Ref -> FabricObject) (c : Canvas) : string :=
  stringify (map h (getUserObjects h c)).

(** The scene is edited, the debounce timer expires and the state is
    captured; and so on through a list of scenes. *)
Definition withScene (scene : (Ref -> FabricObject) * Canvas) (d : Designer)
    : Designer :=
  setHeap (fst scene) (setCanvas (Some (snd scene)) d).

Definition captureAll (stringify : list FabricObject -> string)
    (scenes : list ((Ref -> FabricObject) * Canvas)) (d : Designer) : Designer :=
  fold_left (fun d scene => saveStateImmediate stringify (withScene scene d))
            scenes d.

(** A serializer for the examples: the names of the objects, one after the
    other. *)
Definition namesOf (objs : list FabricObject) : string :=
  String.concat "," (map name objs).

(** Scene number [n] of the examples: one object, named by [n] letters. *)
Fixpoint letters (n : nat) : string :=
  match n with
  | O => EmptyString
  | S n' => String "a"%char (letters n')
  end.

Definition sceneNumber (n : nat) : (Ref -> FabricObject) * Canvas :=
  (fun _ => mkObject (letters n) 0 0 OriginLeft OriginTop 10 10 upright,
   mkCanvas [0%nat] 2480 1748 1).

(** The designer just initialized: scene number 1 on the canvas, nothing
    captured yet. *)
Definition freshDesigner : Designer :=
  mkDesigner (Some (snd (sceneNumber 1))) (fst (sceneNumber 1)) 1%nat
             [] [] false false [].

(** Scene number 2 on the canvas while a restore is under way: the undo
    stack holds the snapshot of scene number 1, the redo stack one entry. *)
Definition restoringDesigner : Designer :=
  mkDesigner (Some (snd (sceneNumber 2))) (fst (sceneNumber 2)) 1%nat
             ["a"%string] ["aaa"%string] true true ["a"%string].

(** Two canvases of the same sheet: same size and zoom, hence the same safe
    area. *)
Definition sameSheet (c c' : Canvas) : Prop :=
  width c' = width c /\ height c' = height c /\ zoom c' = zoom c.

(** A sheet with nothing on it but an image larger than the safe area. *)
Definition oversizedDesigner : Designer :=
  mkDesigner (Some (mkCanvas [2%nat] 2480 1748 1)) sampleHeap 3%nat
             [] [] false false [].

(** The test that [reflowObjectsIntoSafeArea] applies to the objects of the
    canvas: not a decoration, and out of bounds. *)
Definition displaced (d : Designer) (c : Canvas) (r : Ref) : bool :=
  negb (isBleedObject (heap d r)) && outOfBounds (safeRectOf c) (heap d r).

(** The objects of [d'] have the names, the sizes and the rotations they
    have in [d]. *)
Definition sameShapes (d d' : Designer) : Prop :=
  forall r, name (heap d' r) = name (heap d r) /\
            scaledWidth (heap d' r) = scaledWidth (heap d r) /\
            scaledHeight (heap d' r) = scaledHeight (heap d r) /\
            angle (heap d' r) = angle (heap d r).

(* ------------------------------------------------------------------ *)
(** ** The grid that bounds the fill loop *)







(** What [clone()] yields in the examples: a copy without a name, and a
    rejected promise for an object of negative size. *)
Definition sampleClone (obj : FabricObject) : option FabricObject :=
  if Qle_bool 0 (scaledWidth obj) && Qle_bool 0 (scaledHeight obj)
  then Some (mkObject "" (objLeft obj) (objTop obj) (originX obj) (originY obj)
                      (scaledWidth obj) (scaledHeight obj) (angle obj))
  else None.

(** A sheet with one image of 1000 x 700 on it. *)
Definition posterDesigner : Designer :=
  mkDesigner (Some (mkCanvas [0%nat] 2480 1748 1))
             (fun _ => mkObject "" 0 0 OriginLeft OriginTop 1000 700 upright)
             1%nat [] [] false false [].


(* ------------------------------------------------------------------ *)
(** ** Predicates used in the further statements *)

(** The order in which [freeRects.sort] arranges rectangles: by [top], then
    by [left]. *)
Definition comesBefore (a b : Rect) : Prop :=
  top a < top b \/ (top a == top b /\ left a <= left b).

(** The two stacks together hold at most [MAX_HISTORY] snapshots, and there
    is something to undo to whenever there is something to redo. *)
Definition historyBounded (d : Designer) : Prop :=
  (List.length (undoStack d) + List.length (redoStack d) <= MAX_HISTORY)%nat /\
  (redoStack d <> [] -> undoStack d <> []).

(** The state in the middle of a bulk operation: the canvas is there and
    [isRestoring] is set. *)
Definition busy (d : Designer) : Prop :=
  exists c, canvas d = Some c /\ isRestoring d = true.

(** A sheet with two images behind a bleed overlay: the image at the corner
    of the safe area and an image that is out of bounds. *)
Definition overlaidHeap : Ref -> FabricObject :=
  fun r =>
    match r with
    | 3%nat => mkObject "bleedOverlay" 0 0 OriginLeft OriginTop 2480 59 upright
    | _ => sampleHeap r
    end.

Definition overlaidCanvas : Canvas := mkCanvas [0%nat; 1%nat; 3%nat] 2480 1748 1.

Definition overlaidDesigner : Designer :=
  mkDesigner (Some overlaidCanvas) overlaidHeap 4%nat [] [] false false [].


(* ================================================================== *)
(** * Properties *)

(* ------------------------------------------------------------------ *)
(** ** Boolean comparisons decide the order *)

Lemma Qltb_true a b : Qltb a b = true <-> a < b.
Proof.
  unfold Qltb. rewrite negb_true_iff.
  split; intro H.
  - apply Qnot_le_lt. intro Hle. apply Qle_bool_iff in Hle. congruence.
  - destruct (Qle_bool b a) eqn:E; [|reflexivity].
    apply Qle_bool_iff in E. lra.
Qed.

Lemma Qltb_false a b : Qltb a b = false <-> b <= a.
Proof.
  unfold Qltb. rewrite negb_false_iff. apply Qle_bool_iff.
Qed.

Lemma Qle_bool_false a b : Qle_bool a b = false <-> b < a.
Proof.
  rewrite <- Qltb_true. unfold Qltb.
  destruct (Qle_bool a b); simpl; intuition congruence.
Qed.

Lemma Qgeb_true a b : Qgeb a b = true <-> b <= a.
Proof. apply Qle_bool_iff. Qed.

Lemma Qgeb_false a b : Qgeb a b = false <-> a < b.
Proof. apply Qle_bool_false. Qed.

Lemma Qgtb_true a b : Qgtb a b = true <-> b < a.
Proof. apply Qltb_true. Qed.

Lemma Qgtb_false a b : Qgtb a b = false <-> a <= b.
Proof. apply Qltb_false. Qed.

(** Turns every boolean comparison among the hypotheses and in the goal into
    the order relation it decides. *)
Ltac qbool :=
  repeat match goal with
  | H : _ && _ = true |- _ => apply andb_true_iff in H; destruct H
  | H : _ || _ = false |- _ => apply orb_false_iff in H; destruct H
  | H : negb _ = true |- _ => apply negb_true_iff in H
  | H : negb _ = false |- _ => apply negb_false_iff in H
  | H : Qltb _ _ = true |- _ => apply Qltb_true in H
  | H : Qltb _ _ = false |- _ => apply Qltb_false in H
  | H : Qgtb _ _ = true |- _ => apply Qgtb_true in H
  | H : Qgtb _ _ = false |- _ => apply Qgtb_false in H
  | H : Qgeb _ _ = true |- _ => apply Qgeb_true in H
  | H : Qgeb _ _ = false |- _ => apply Qgeb_false in H
  | H : Qle_bool _ _ = true |- _ => apply Qle_bool_iff in H
  | H : Qle_bool _ _ = false |- _ => apply Qle_bool_false in H
  | |- Qltb _ _ = true => apply Qltb_true
  | |- Qltb _ _ = false => apply Qltb_false
  | |- Qgtb _ _ = true => apply Qgtb_true
  | |- Qgtb _ _ = false => apply Qgtb_false
  | |- Qgeb _ _ = true => apply Qgeb_true
  | |- Qgeb _ _ = false => apply Qgeb_false
  | |- Qle_bool _ _ = true => apply Qle_bool_iff
  | |- Qle_bool _ _ = false => apply Qle_bool_false
  end.

(** Names every [Qmax] and [Qmin] in sight and records its defining cases,
    leaving a goal of linear arithmetic. *)
Ltac qminmax :=
  repeat match goal with
  | |- context [Qmax ?a ?b] =>
      let m := fresh "m" in
      pose proof (Q.max_spec a b); set (m := Qmax a b) in *; clearbody m
  | |- context [Qmin ?a ?b] =>
      let m := fresh "m" in
      pose proof (Q.min_spec a b); set (m := Qmin a b) in *; clearbody m
  | _ : context [Qmax ?a ?b] |- _ =>
      let m := fresh "m" in
      pose proof (Q.max_spec a b); set (m := Qmax a b) in *; clearbody m
  | _ : context [Qmin ?a ?b] |- _ =>
      let m := fresh "m" in
      pose proof (Q.min_spec a b); set (m := Qmin a b) in *; clearbody m
  end.

(** Projections of record literals are computed and halving is turned into a
    product, so that what is left is linear. *)
Ltac qnorm :=
  unfold rectWidth, rectHeight, within, inside, interior in *;
  cbn [left top right bottom intersection
       boundsLeft boundsTop boundsWidth boundsHeight gutterBox] in *;
  unfold Qdiv in *;
  change (/ 2) with (1 # 2) in *.

(** Linear arithmetic, choosing a side of a disjunctive goal when needed. *)
Ltac qgoal :=
  first
    [ lra
    | match goal with
      | |- _ /\ _ => split; qgoal
      | |- _ \/ _ => first [left; qgoal | right; qgoal]
      end ].

Ltac qsolve :=
  qbool; qnorm;
  repeat match goal with
  | H : _ /\ _ |- _ => destruct H
  | H : _ \/ _ |- _ => destruct H
  end;
  qminmax; qgoal.

(* ------------------------------------------------------------------ *)
(** ** Rectangle subtraction *)

Lemma degenerate_true (i : Rect) :
  degenerate i = true <-> right i <= left i \/ bottom i <= top i.
Proof.
  unfold degenerate. rewrite orb_true_iff, !Qgeb_true. tauto.
Qed.

Lemma degenerate_false (i : Rect) :
  degenerate i = false <-> left i < right i /\ top i < bottom i.
Proof.
  unfold degenerate. rewrite orb_false_iff, !Qgeb_false. tauto.
Qed.

Lemma notSliver_true (r : Rect) :
  notSliver r = true <-> 1 < rectWidth r /\ 1 < rectHeight r.
Proof.
  unfold notSliver, rectWidth, rectHeight.
  rewrite andb_true_iff, !Qgtb_true. tauto.
Qed.

Lemma notSliver_false (r : Rect) :
  notSliver r = false <-> rectWidth r <= 1 \/ rectHeight r <= 1.
Proof.
  unfold notSliver, rectWidth, rectHeight.
  rewrite andb_false_iff, !Qgtb_false. tauto.
Qed.

(** Case analysis on the four guards of [remainders]. *)
Ltac remainders_cases freeRect blockerRect :=
  unfold remainders;
  destruct (Qgtb (Qmin (bottom freeRect) (bottom (intersection freeRect blockerRect)))
                 (Qmax (top freeRect) (top (intersection freeRect blockerRect)))) eqn:?;
  destruct (Qltb (top freeRect) (top (intersection freeRect blockerRect))) eqn:?;
  destruct (Qltb (bottom (intersection freeRect blockerRect)) (bottom freeRect)) eqn:?;
  destruct (Qltb (left freeRect) (left (intersection freeRect blockerRect))) eqn:?;
  destruct (Qltb (right (intersection freeRect blockerRect)) (right freeRect)) eqn:?;
  cbn [app].

Lemma remainders_length (freeRect blockerRect : Rect) :
  (List.length (remainders freeRect blockerRect) <= 4)%nat.
Proof.
  remainders_cases freeRect blockerRect; simpl; lia.
Qed.

Lemma remainders_within (freeRect blockerRect r : Rect) :
  degenerate (intersection freeRect blockerRect) = false ->
  In r (remainders freeRect blockerRect) ->
  within r freeRect /\ degenerate (intersection r blockerRect) = true.
Proof.
  intros Hd. apply degenerate_false in Hd. revert Hd.
  remainders_cases freeRect blockerRect; simpl; intros Hd Hin;
    repeat (destruct Hin as [<- | Hin]; [| try contradiction]);
    try contradiction;
    (split; [unfold within | apply degenerate_true]; qsolve).
Qed.

Lemma remainders_cover (freeRect blockerRect : Rect) (x y : Q) :
  degenerate (intersection freeRect blockerRect) = false ->
  inside freeRect x y -> ~ inside blockerRect x y ->
  exists r, In r (remainders freeRect blockerRect) /\ inside r x y.
Proof.
  intros Hd Hin Hout. apply degenerate_false in Hd.
  assert (Hpos : x < left blockerRect \/ right blockerRect < x \/
                 y < top blockerRect \/ bottom blockerRect < y).
  { unfold inside in Hout.
    destruct (Qlt_le_dec x (left blockerRect)); [tauto|].
    destruct (Qlt_le_dec (right blockerRect) x); [tauto|].
    destruct (Qlt_le_dec y (top blockerRect)); [tauto|].
    destruct (Qlt_le_dec (bottom blockerRect) y); [tauto|].
    exfalso; apply Hout; tauto. }
  clear Hout. unfold inside in Hin. revert Hd Hin Hpos.
  remainders_cases freeRect blockerRect; intros Hd Hin Hpos;
    match goal with
    | |- exists r, In r ?l /\ _ =>
        cut (Exists (fun r => inside r x y) l);
        [ intro HE; apply Exists_exists in HE; exact HE | ]
    end;
    repeat rewrite Exists_cons; rewrite Exists_nil; unfold inside; qsolve.
Qed.

Lemma overlap_positive (a b : Rect) :
  degenerate (intersection a b) = false <-> positiveOverlap a b.
Proof.
  rewrite degenerate_false. unfold positiveOverlap, interior. split.
  - intros [Hx Hy].
    exists ((left (intersection a b) + right (intersection a b)) / 2),
           ((top (intersection a b) + bottom (intersection a b)) / 2).
    qsolve.
  - intros (x & y & Ha & Hb). qsolve.
Qed.

Lemma no_overlap_not_positive (a b : Rect) :
  degenerate (intersection a b) = true <-> ~ positiveOverlap a b.
Proof.
  rewrite <- overlap_positive.
  destruct (degenerate (intersection a b)); intuition congruence.
Qed.

(** C6.  [subtractRect free blocker] is [[free]] when the two rectangles
    share no region of positive area.  Otherwise it holds at most four
    rectangles, each inside [free] and clear of [blocker]; every point of
    [free] outside [blocker] lies in one of the top, bottom, left and right
    remainders, and a remainder is missing from the result exactly when its
    width or its height is at most 1. *)
Theorem subtractRect_covers_difference (freeRect blockerRect : Rect) :
  (~ positiveOverlap freeRect blockerRect ->
     subtractRect freeRect blockerRect = [freeRect]) /\
  (positiveOverlap freeRect blockerRect ->
     (List.length (subtractRect freeRect blockerRect) <= 4)%nat /\
     (forall r, In r (subtractRect freeRect blockerRect) ->
        within r freeRect /\ ~ positiveOverlap r blockerRect) /\
     (forall x y, inside freeRect x y -> ~ inside blockerRect x y ->
        exists r, In r (remainders freeRect blockerRect) /\ inside r x y) /\
     (forall r, In r (remainders freeRect blockerRect) ->
        (In r (subtractRect freeRect blockerRect) <->
         ~ (rectWidth r <= 1 \/ rectHeight r <= 1)))).
Proof.
  split.
  - intros H. apply no_overlap_not_positive in H.
    unfold subtractRect. now rewrite H.
  - intros H. apply overlap_positive in H.
    unfold subtractRect. rewrite H.
    split; [| split; [| split]].
    + eapply Nat.le_trans; [apply filter_length_le | apply remainders_length].
    + intros r Hr. apply filter_In in Hr. destruct Hr as [Hr _].
      destruct (remainders_within _ _ _ H Hr) as [Hw Hd].
      split; [exact Hw | now apply no_overlap_not_positive].
    + intros x y Hin Hout. now apply remainders_cover.
    + intros r Hr. rewrite filter_In, <- notSliver_false.
      destruct (notSliver r); intuition congruence.
Qed.

Lemma subtractRect_covers_difference_witness :
  let freeRect := mkRect 0 0 100 100 in
  let blockerRect := mkRect 30 30 70 70 in
  subtractRect freeRect blockerRect =
    [ mkRect 0 0 100 30; mkRect 0 70 100 100;
      mkRect 0 30 30 70; mkRect 70 30 100 70 ] /\
  (List.length (subtractRect freeRect blockerRect) <= 4)%nat.
Proof.
  split; [vm_compute; reflexivity |].
  apply (subtractRect_covers_difference (mkRect 0 0 100 100) (mkRect 30 30 70 70)).
  exists 50, 50. unfold interior; simpl. lra.
Defined.

(* ------------------------------------------------------------------ *)
(** ** Pruning *)

Lemma containsRect_true (other rect : Rect) :
  containsRect other rect = true <-> within rect other.
Proof.
  unfold containsRect, within.
  rewrite !andb_true_iff, !Qgeb_true, !Qle_bool_iff. tauto.
Qed.

Lemma containsRect_refl (rect : Rect) : containsRect rect rect = true.
Proof. apply containsRect_true. unfold within. lra. Qed.

Lemma indexed_from_In {A : Type} (l : list A) (s k : nat) (a : A) :
  In (k, a) (combine (seq s (List.length l)) l) <->
  (s <= k)%nat /\ nth_error l (k - s) = Some a.
Proof.
  revert s. induction l as [| b l IH]; intros s; simpl.
  - split; [tauto |]. intros [_ H]. destruct (k - s)%nat; discriminate.
  - rewrite IH. split.
    + intros [H | [Hle H]].
      * injection H as <- <-. rewrite Nat.sub_diag. split; [lia | reflexivity].
      * split; [lia |]. replace (k - s)%nat with (S (k - S s)) by lia. exact H.
    + intros [Hle H]. destruct (Nat.eq_dec s k) as [-> | Hne].
      * rewrite Nat.sub_diag in H. simpl in H. left. congruence.
      * right. split; [lia |].
        replace (k - s)%nat with (S (k - S s)) in H by lia. exact H.
Qed.

Lemma indexed_In {A : Type} (l : list A) (k : nat) (a : A) :
  In (k, a) (indexed l) <-> nth_error l k = Some a.
Proof.
  unfold indexed. rewrite indexed_from_In, Nat.sub_0_r.
  split; [tauto | intro; split; [lia | assumption]].
Qed.

Lemma indexed_fst {A : Type} (l : list A) :
  map fst (indexed l) = seq 0 (List.length l).
Proof.
  unfold indexed. generalize 0%nat.
  induction l as [| a l IH]; intros s; simpl; [reflexivity |].
  now rewrite IH.
Qed.

Lemma NoDup_map_fst_filter {A B : Type} (f : A * B -> bool) (l : list (A * B)) :
  NoDup (map fst l) -> NoDup (map fst (filter f l)).
Proof.
  induction l as [| p l IH]; simpl; intros H; [constructor |].
  inversion H as [| ? ? Hnin Hnd]; subst.
  destruct (f p); simpl; [| now apply IH].
  constructor; [| now apply IH].
  intros Hin. apply Hnin.
  apply in_map_iff in Hin. destruct Hin as (q & Hq & Hin).
  apply filter_In in Hin. apply in_map_iff. exists q. tauto.
Qed.

Lemma keeps_true (rects : list Rect) (k : nat) (r : Rect) :
  keeps rects (k, r) = true <->
  forall m o, m <> k -> nth_error rects m = Some o -> containsRect o r = false.
Proof.
  unfold keeps. rewrite negb_true_iff. split.
  - intros H m o Hne Hm.
    destruct (containsRect o r) eqn:E; [| reflexivity].
    rewrite <- H. symmetry. apply existsb_exists.
    exists (m, o). split; [now apply indexed_In |].
    destruct (Nat.eqb_spec k m); [congruence | exact E].
  - intros H. destruct (existsb _ _) eqn:E; [| reflexivity].
    apply existsb_exists in E. destruct E as ([m o] & Hin & Hc).
    apply indexed_In in Hin.
    destruct (Nat.eqb_spec k m); [discriminate |].
    rewrite (H m o) in Hc; [discriminate | congruence | exact Hin].
Qed.

(** A rectangle is in the pruned list exactly when it stands at an index of
    the input at which no rectangle at another index contains it. *)
Lemma pruneContainedRects_In (rects : list Rect) (r : Rect) :
  In r (pruneContainedRects rects) <->
  exists k, nth_error rects k = Some r /\
            forall m o, m <> k -> nth_error rects m = Some o ->
                        containsRect o r = false.
Proof.
  unfold pruneContainedRects. rewrite in_map_iff. split.
  - intros ([k r'] & Heq & Hin). simpl in Heq. subst r'.
    apply filter_In in Hin. destruct Hin as [Hin Hk].
    exists k. split; [now apply indexed_In | now apply keeps_true].
  - intros (k & Hk & Hall). exists (k, r). split; [reflexivity |].
    apply filter_In. split; [now apply indexed_In | now apply keeps_true].
Qed.

Lemma pruneContainedRects_incl (rects : list Rect) (r : Rect) :
  In r (pruneContainedRects rects) -> In r rects.
Proof.
  intros H. apply pruneContainedRects_In in H.
  destruct H as (k & Hk & _). eapply nth_error_In; eauto.
Qed.

(** Two different positions of the pruned list hold rectangles neither of
    which contains the other. *)
Lemma pruneContainedRects_antichain (rects : list Rect) (i j : nat) (r o : Rect) :
  i <> j ->
  nth_error (pruneContainedRects rects) i = Some r ->
  nth_error (pruneContainedRects rects) j = Some o ->
  containsRect o r = false.
Proof.
  intros Hne Hi Hj. unfold pruneContainedRects in Hi, Hj.
  set (F := filter (keeps rects) (indexed rects)) in *.
  rewrite nth_error_map in Hi, Hj.
  destruct (nth_error F i) as [[a r'] |] eqn:Ei; [| discriminate].
  destruct (nth_error F j) as [[b o'] |] eqn:Ej; [| discriminate].
  simpl in Hi, Hj. injection Hi as ->. injection Hj as ->.
  assert (Hnd : NoDup (map fst F)).
  { apply NoDup_map_fst_filter. rewrite indexed_fst. apply seq_NoDup. }
  assert (Hab : a <> b).
  { intros ->. apply Hne.
    apply (proj1 (NoDup_nth_error (map fst F)) Hnd).
    - rewrite length_map. apply nth_error_Some. congruence.
    - rewrite !nth_error_map, Ei, Ej. reflexivity. }
  assert (Ha : In (a, r) F) by (eapply nth_error_In; eauto).
  assert (Hb : In (b, o) F) by (eapply nth_error_In; eauto).
  apply filter_In in Ha, Hb. destruct Ha as [_ Ha], Hb as [Hb _].
  apply indexed_In in Hb.
  apply (proj1 (keeps_true rects a r) Ha b o); [congruence | exact Hb].
Qed.

(** C10.  When the input holds the same rectangle at two different indices,
    no copy of it is left in the result of [pruneContainedRects]: each copy
    is contained in the other. *)
Theorem pruneContainedRects_drops_duplicates
    (rects : list Rect) (i j : nat) (r : Rect) :
  i <> j ->
  nth_error rects i = Some r ->
  nth_error rects j = Some r ->
  ~ In r (pruneContainedRects rects).
Proof.
  intros Hne Hi Hj Hin.
  apply pruneContainedRects_In in Hin. destruct Hin as (k & Hk & Hall).
  destruct (Nat.eq_dec i k) as [-> | Hik].
  - pose proof (containsRect_refl r) as E.
    rewrite (Hall j r) in E; [discriminate | congruence | exact Hj].
  - pose proof (containsRect_refl r) as E.
    rewrite (Hall i r) in E; [discriminate | exact Hik | exact Hi].
Qed.

Lemma pruneContainedRects_drops_duplicates_witness :
  let a := mkRect 0 0 10 10 in
  let b := mkRect 20 0 30 10 in
  pruneContainedRects [a; b; a] = [b] /\
  ~ In a (pruneContainedRects [a; b; a]).
Proof.
  split; [vm_compute; reflexivity |].
  apply (pruneContainedRects_drops_duplicates
           [mkRect 0 0 10 10; mkRect 20 0 30 10; mkRect 0 0 10 10] 0 2);
    [lia | reflexivity | reflexivity].
Defined.

(* ------------------------------------------------------------------ *)
(** ** The free-rectangle list *)

Lemma within_refl (r : Rect) : within r r.
Proof. unfold within. lra. Qed.

Lemma within_trans (a b c : Rect) : within a b -> within b c -> within a c.
Proof. unfold within. lra. Qed.

Lemma clearOf_within (r f b : Rect) : within r f -> clearOf f b -> clearOf r b.
Proof.
  unfold clearOf. rewrite !degenerate_true. unfold within. intros. qsolve.
Qed.

Lemma clampRect_Some (rect bounds c : Rect) :
  clampRect rect bounds = Some c ->
  c = intersection rect bounds /\ proper c /\ within c bounds /\ within c rect.
Proof.
  unfold clampRect. cbn [left top right bottom].
  destruct (_ || _) eqn:E; [discriminate |].
  intros [= <-]. split; [reflexivity |].
  unfold proper, within. qsolve.
Qed.

Lemma subtractRect_In (freeRect blockerRect r : Rect) :
  In r (subtractRect freeRect blockerRect) ->
  within r freeRect /\ clearOf r blockerRect /\ (proper freeRect -> proper r).
Proof.
  unfold subtractRect.
  destruct (degenerate (intersection freeRect blockerRect)) eqn:E.
  - intros [<- | []]. split; [apply within_refl | split; [exact E | tauto]].
  - intros H. apply filter_In in H. destruct H as [H Hs].
    destruct (remainders_within _ _ _ E H) as [Hw Hc].
    split; [exact Hw | split; [exact Hc |]].
    intros _. apply notSliver_true in Hs. unfold proper. qsolve.
Qed.

Lemma blockOut_invariant (gutter : Q) (safeRect : Rect) (done : list Bounds)
    (freeRects : list Rect) (bounds : Bounds) :
  freeInvariant safeRect (clampedBlockers gutter safeRect done) freeRects ->
  freeInvariant safeRect (clampedBlockers gutter safeRect (done ++ [bounds]))
                (blockOut gutter safeRect freeRects bounds).
Proof.
  intros Hinv r Hr. unfold blockOut in Hr. unfold clampedBlockers.
  rewrite flat_map_app. cbn [flat_map]. rewrite app_nil_r.
  fold (clampedBlockers gutter safeRect done).
  destruct (clampRect (gutterBox gutter bounds) safeRect) as [cb |] eqn:E.
  - apply in_flat_map in Hr. destruct Hr as (f & Hf & Hr).
    destruct (Hinv f Hf) as (Hw & Hp & Hc).
    destruct (subtractRect_In _ _ _ Hr) as (Hw' & Hc' & Hp').
    split; [eapply within_trans; eauto | split; [tauto |]].
    intros b Hb. apply in_app_or in Hb. destruct Hb as [Hb | [<- | []]].
    + eapply clearOf_within; eauto.
    + exact Hc'.
  - destruct (Hinv r Hr) as (Hw & Hp & Hc).
    split; [exact Hw | split; [exact Hp |]].
    intros b Hb. apply in_app_or in Hb. destruct Hb as [Hb | []]. auto.
Qed.

Lemma fold_blockOut_invariant (gutter : Q) (safeRect : Rect)
    (occupied done : list Bounds) (freeRects : list Rect) :
  freeInvariant safeRect (clampedBlockers gutter safeRect done) freeRects ->
  freeInvariant safeRect (clampedBlockers gutter safeRect (done ++ occupied))
                (fold_left (blockOut gutter safeRect) occupied freeRects).
Proof.
  revert done freeRects.
  induction occupied as [| bounds occupied IH]; intros done freeRects Hinv.
  - now rewrite app_nil_r.
  - cbn [fold_left].
    replace (done ++ bounds :: occupied) with ((done ++ [bounds]) ++ occupied)
      by (now rewrite <- app_assoc).
    apply IH. now apply blockOut_invariant.
Qed.

Lemma computeFreeSpace_invariant (gutter : Q) (safeRect : Rect)
    (occupied : list Bounds) :
  freeInvariant safeRect (clampedBlockers gutter safeRect occupied)
                (computeFreeSpace gutter safeRect occupied).
Proof.
  intros r Hr. unfold computeFreeSpace in Hr.
  apply pruneContainedRects_incl in Hr. revert r Hr.
  apply (fold_blockOut_invariant gutter safeRect occupied [] [safeRect]).
  intros r [<- | []].
  split; [apply within_refl | split; [tauto | intros b []]].
Qed.

(** C5.  Every rectangle of the free list is a subset of the safe area, and
    no rectangle of the list (after pruning) is contained in the rectangle at
    another position of the list. *)
Theorem computeFreeSpace_within_safe_and_pruned
    (gutter : Q) (safeRect : Rect) (occupied : list Bounds) :
  (forall r, In r (computeFreeSpace gutter safeRect occupied) ->
             within r safeRect) /\
  (forall i j r o,
      i <> j ->
      nth_error (computeFreeSpace gutter safeRect occupied) i = Some r ->
      nth_error (computeFreeSpace gutter safeRect occupied) j = Some o ->
      ~ within r o).
Proof.
  split.
  - intros r Hr. now apply (computeFreeSpace_invariant gutter safeRect occupied).
  - intros i j r o Hne Hi Hj Hw.
    apply containsRect_true in Hw.
    unfold computeFreeSpace in Hi, Hj.
    rewrite (pruneContainedRects_antichain _ i j r o Hne Hi Hj) in Hw.
    discriminate.
Qed.

Lemma computeFreeSpace_within_safe_and_pruned_witness :
  let safeRect := mkRect 0 0 100 100 in
  let occupied := [mkBounds 40 40 20 20] in
  computeFreeSpace 0 safeRect occupied =
    [ mkRect 0 0 100 40; mkRect 0 60 100 100;
      mkRect 0 40 40 60; mkRect 60 40 100 60 ] /\
  (forall r, In r (computeFreeSpace 0 safeRect occupied) -> within r safeRect).
Proof.
  split; [vm_compute; reflexivity |].
  apply (computeFreeSpace_within_safe_and_pruned
           0 (mkRect 0 0 100 100) [mkBounds 40 40 20 20]).
Defined.

(* ------------------------------------------------------------------ *)
(** ** The placement engine *)

Lemma insertRect_In (a x : Rect) (l : list Rect) :
  In x (insertRect a l) <-> x = a \/ In x l.
Proof.
  induction l as [| b l IH]; simpl.
  - intuition.
  - destruct (Qle_bool (compareRects a b) 0); simpl; [intuition |].
    rewrite IH. intuition.
Qed.

Lemma sortRects_In (x : Rect) (l : list Rect) :
  In x (sortRects l) <-> In x l.
Proof.
  induction l as [| a l IH]; simpl; [tauto |].
  rewrite insertRect_In, IH. intuition.
Qed.

(** The three ways out of [arrangeObjectOnCanvas] once the canvas and the
    object are there. *)
Lemma arrange_invalid (d : Designer) (c : Canvas) (o : Ref) :
  canvas d = Some c -> invalidSafeRect (safeRectOf c) = true ->
  arrangeObjectOnCanvas (Some o) d =
  (setHeap (store o (setCentered (virtualWidth c / 2) (virtualHeight c / 2)
                                 (heap d o)) (heap d)) d, false).
Proof.
  intros Hc Hi. unfold arrangeObjectOnCanvas. now rewrite Hc, Hi.
Qed.

Lemma arrange_valid (d : Designer) (c : Canvas) (o : Ref) :
  canvas d = Some c -> invalidSafeRect (safeRectOf c) = false ->
  arrangeObjectOnCanvas (Some o) d =
  match find (fits (scaledWidth (heap d o)) (scaledHeight (heap d o)))
             (sortRects (freeRectsOf d c o)) with
  | Some placementRect =>
      (setHeap (store o (setCentered
                           (left placementRect + scaledWidth (heap d o) / 2)
                           (top placementRect + scaledHeight (heap d o) / 2)
                           (heap d o)) (heap d)) d, true)
  | None =>
      (setHeap (store o (setCentered
                           ((left (safeRectOf c) + right (safeRectOf c)) / 2)
                           ((top (safeRectOf c) + bottom (safeRectOf c)) / 2)
                           (heap d o)) (heap d)) d, false)
  end.
Proof.
  intros Hc Hi. unfold arrangeObjectOnCanvas. rewrite Hc, Hi. reflexivity.
Qed.

(** Whatever the way out, the new state is the old one with the arranged
    object moved. *)
Lemma arrange_moves (d : Designer) (o : Ref) :
  exists x y,
    fst (arrangeObjectOnCanvas (Some o) d) = d \/
    fst (arrangeObjectOnCanvas (Some o) d) =
      setHeap (store o (setCentered x y (heap d o)) (heap d)) d.
Proof.
  unfold arrangeObjectOnCanvas.
  destruct (canvas d) as [c |]; [| exists 0, 0; now left].
  destruct (invalidSafeRect (safeRectOf c)); [eexists; eexists; right; reflexivity |].
  destruct (find _ _); eexists; eexists; right; reflexivity.
Qed.

Lemma store_same (r : Ref) (obj : FabricObject) (h : Ref -> FabricObject) :
  store r obj h r = obj.
Proof. unfold store. now rewrite Nat.eqb_refl. Qed.

Lemma store_other (r r' : Ref) (obj : FabricObject) (h : Ref -> FabricObject) :
  r' <> r -> store r obj h r' = h r'.
Proof.
  intros H. unfold store. destruct (Nat.eqb_spec r' r); [contradiction | reflexivity].
Qed.

(** C9.  A call of [arrangeObjectOnCanvas] writes nothing but the position of
    its argument: every other object is as it was, the argument keeps its
    name, its size and its rotation, and the canvas and the rest of the
    module state are untouched, on each of the paths through the function. *)
Theorem arrangeObjectOnCanvas_frame
    (objToArrange : option Ref) (d : Designer) (other : Ref) :
  objToArrange <> Some other ->
  let d' := fst (arrangeObjectOnCanvas objToArrange d) in
  heap d' other = heap d other /\
  (forall o, objToArrange = Some o ->
     name (heap d' o) = name (heap d o) /\
     scaledWidth (heap d' o) = scaledWidth (heap d o) /\
     scaledHeight (heap d' o) = scaledHeight (heap d o) /\
     angle (heap d' o) = angle (heap d o)) /\
  canvas d' = canvas d /\ nextRef d' = nextRef d /\
  undoStack d' = undoStack d /\ redoStack d' = redoStack d /\
  isRestoring d' = isRestoring d /\
  saveStateTimeout d' = saveStateTimeout d /\ loading d' = loading d.
Proof.
  intros Hne. destruct objToArrange as [o |].
  - assert (Ho : other <> o) by congruence.
    destruct (arrange_moves d o) as (x & y & [E | E]); cbv zeta; rewrite E.
    + repeat split; try reflexivity;
        match goal with H : Some _ = Some _ |- _ => injection H as <- end;
        reflexivity.
    + cbn. rewrite (store_other _ _ _ _ Ho).
      repeat split; try reflexivity;
        match goal with H : Some _ = Some _ |- _ => injection H as <- end;
        rewrite store_same; reflexivity.
  - unfold arrangeObjectOnCanvas. destruct (canvas d) eqn:E; cbn;
      repeat split; try reflexivity; try assumption; discriminate.
Qed.

Lemma arrangeObjectOnCanvas_frame_witness :
  heap (fst (arrangeObjectOnCanvas (Some 1%nat) sampleDesigner)) 0%nat =
  heap sampleDesigner 0%nat /\
  heap (fst (arrangeObjectOnCanvas (Some 1%nat) sampleDesigner)) 1%nat <>
  heap sampleDesigner 1%nat.
Proof.
  split.
  - apply (arrangeObjectOnCanvas_frame (Some 1%nat) sampleDesigner 0%nat).
    discriminate.
  - vm_compute. discriminate.
Defined.

Lemma clamped_clear (box r safeRect g : Rect) :
  within box r -> within r safeRect ->
  (forall cb, clampRect g safeRect = Some cb -> clearOf r cb) ->
  clearOf box g.
Proof.
  intros Hb Hr Hc. unfold clearOf. apply degenerate_true.
  destruct (clampRect g safeRect) as [cb |] eqn:E.
  - specialize (Hc cb eq_refl).
    apply clampRect_Some in E. destruct E as (-> & _).
    unfold clearOf in Hc. apply degenerate_true in Hc. qsolve.
  - clear Hc. unfold clampRect in E. cbn [left top right bottom] in E.
    destruct (_ || _) eqn:E'; [| discriminate].
    apply orb_true_iff in E'. rewrite !Qgeb_true in E'. qsolve.
Qed.

Lemma clampedBlockers_In (gutter : Q) (safeRect : Rect)
    (occupied : list Bounds) (bounds : Bounds) (cb : Rect) :
  In bounds occupied ->
  clampRect (gutterBox gutter bounds) safeRect = Some cb ->
  In cb (clampedBlockers gutter safeRect occupied).
Proof.
  intros Hin E. unfold clampedBlockers. apply in_flat_map.
  exists bounds. split; [exact Hin |]. rewrite E. now left.
Qed.

Lemma blockersOf_In (d : Designer) (c : Canvas) (o other : Ref) :
  In other (blockersOf d c o) <->
  In other (getUserObjects (heap d) c) /\ other <> o.
Proof.
  unfold blockersOf. rewrite filter_In, negb_true_iff, Nat.eqb_neq. tauto.
Qed.

(** A box inside a rectangle of the free list lies inside the safe area and
    keeps clear of the gutter box of every blocker. *)
Lemma freeRectsOf_clear (d : Designer) (c : Canvas) (o : Ref) (r box : Rect) :
  In r (freeRectsOf d c o) -> within box r ->
  within box (safeRectOf c) /\
  forall other, In other (blockersOf d c o) ->
    clearOf box (gutterBox PLACEMENT_GUTTER (getBoundingRect (heap d other))).
Proof.
  intros Hr Hbox.
  destruct (computeFreeSpace_invariant _ _ _ r Hr) as (Hw & _ & Hc).
  split; [eapply within_trans; eauto |].
  intros other Hother.
  eapply clamped_clear; [exact Hbox | exact Hw |].
  intros cb E. apply Hc. eapply clampedBlockers_In; [| exact E].
  apply in_map_iff. eauto.
Qed.

Lemma fits_true (w h : Q) (r : Rect) :
  fits w h r = true <-> w <= rectWidth r /\ h <= rectHeight r.
Proof.
  unfold fits, rectWidth, rectHeight. rewrite andb_true_iff, !Qgeb_true. tauto.
Qed.

(** The centre of an object that [setCentered] has put at [(x, y)] is
    [(x, y)], whatever its rotation. *)
Lemma setCentered_center (x y : Q) (obj : FabricObject) :
  fst (getCenterPoint (setCentered x y obj)) == x /\
  snd (getCenterPoint (setCentered x y obj)) == y.
Proof.
  unfold getCenterPoint, setCentered.
  cbn [originX originY objLeft objTop scaledWidth scaledHeight angle
       originOffsetX originOffsetY fst snd].
  split; ring.
Qed.


(** C1 fails on the code for an object that the user has turned.  The slot
    is chosen by [getScaledWidth] and [getScaledHeight], the sides of the
    object before rotation, and the object is centred on the slot of that
    size; the box that [getBoundingRect] gives, and that the blockers and the
    reflow go by, is the box around the turned object.

    A banner of 400 x 100 turned by 90 degrees, alone on the sheet: the whole
    safe area is free, the call returns [true], and the box of the banner,
    now 100 x 400, begins at [top = -71], above the safe area and off the
    sheet.

    A strip of 100 x 300 turned by 90 degrees, next to an image of 400 x 300:
    the free list holds a rectangle that is large enough, the call returns
    [true], and the box of the strip, now 300 x 100, lies across the image
    itself, let alone its gutter box. *)
Theorem arrangeObjectOnCanvas_misplaces_turned_object :
  let after d o := fst (arrangeObjectOnCanvas (Some o) d) in
  let placed d o := heap (after d o) o in
  ((exists r, In r (freeRectsOf bannerDesigner bannerCanvas 2%nat) /\
              scaledWidth (heap bannerDesigner 2%nat) <= rectWidth r /\
              scaledHeight (heap bannerDesigner 2%nat) <= rectHeight r) /\
   snd (arrangeObjectOnCanvas (Some 2%nat) bannerDesigner) = true /\
   top (objectBox (placed bannerDesigner 2%nat)) == - (71) /\
   ~ within (objectBox (placed bannerDesigner 2%nat)) (safeRectOf bannerCanvas)) /\
  ((exists r, In r (freeRectsOf stripDesigner sampleCanvas 1%nat) /\
              scaledWidth (heap stripDesigner 1%nat) <= rectWidth r /\
              scaledHeight (heap stripDesigner 1%nat) <= rectHeight r) /\
   snd (arrangeObjectOnCanvas (Some 1%nat) stripDesigner) = true /\
   In 0%nat (getUserObjects (heap (after stripDesigner 1%nat)) sampleCanvas) /\
   positiveOverlap (objectBox (placed stripDesigner 1%nat))
                   (objectBox (heap (after stripDesigner 1%nat) 0%nat)) /\
   ~ clearOf (objectBox (placed stripDesigner 1%nat))
             (gutterBox PLACEMENT_GUTTER
                        (getBoundingRect (heap (after stripDesigner 1%nat)
                                               0%nat)))).
Proof.
  cbv zeta. split; [split; [| split; [| split]] | split; [| split; [| split; [| split]]]].
  - eexists. split; [vm_compute; left; reflexivity |].
    split; vm_compute; discriminate.
  - vm_compute. reflexivity.
  - vm_compute. reflexivity.
  - intros (_ & _ & H & _). vm_compute in H. apply H. reflexivity.
  - eexists. split; [vm_compute; left; reflexivity |].
    split; vm_compute; discriminate.
  - vm_compute. reflexivity.
  - vm_compute. left. reflexivity.
  - exists 435, 229. vm_compute. repeat split.
  - vm_compute. discriminate.
Qed.

(* ------------------------------------------------------------------ *)
(** ** History *)

Lemma top_of_app (stack : list string) (s : string) :
  top_of (stack ++ [s]) = Some s.
Proof.
  unfold top_of. rewrite length_app. simpl.
  replace (List.length stack + 1 - 1)%nat with (List.length stack) by lia.
  rewrite nth_error_app2 by lia. now rewrite Nat.sub_diag.
Qed.

Lemma top_of_newest (n : nat) (stack : list string) (s : string) :
  top_of (newest (S n) (stack ++ [s])) = Some s.
Proof.
  unfold newest. rewrite length_app. simpl.
  destruct (Nat.le_gt_cases (List.length stack + 1 - S n) (List.length stack)) as [H | H];
    [| lia].
  rewrite skipn_app.
  replace (List.length stack + 1 - S n - List.length stack)%nat with 0%nat by lia.
  simpl. apply top_of_app.
Qed.

Lemma newest_all (n : nat) (stack : list string) :
  (List.length stack <= n)%nat -> newest n stack = stack.
Proof.
  intros H. unfold newest.
  replace (List.length stack - n)%nat with 0%nat by lia. reflexivity.
Qed.

Lemma newest_length (n : nat) (stack : list string) :
  List.length (newest n stack) = Nat.min n (List.length stack).
Proof. unfold newest. rewrite length_skipn. lia. Qed.

Lemma tl_skipn_app (k : nat) (stack : list string) (s : string) :
  (k < List.length stack)%nat ->
  tl (skipn k stack ++ [s]) = skipn (S k) (stack ++ [s]).
Proof.
  revert k. induction stack as [| a stack IH]; intros k Hk; simpl in Hk; [lia |].
  destruct k as [| k]; [reflexivity |].
  change (tl (skipn k stack ++ [s]) = skipn (S k) (stack ++ [s])).
  apply IH. lia.
Qed.

(** Pushing on the [n] newest entries and shifting when that makes more
    than [n] gives the [n] newest entries of the longer stack. *)
Lemma newest_push (n : nat) (stack : list string) (s : string) :
  (0 < n)%nat ->
  (if Nat.ltb n (List.length (newest n stack ++ [s]))
   then tl (newest n stack ++ [s])
   else newest n stack ++ [s]) = newest n (stack ++ [s]).
Proof.
  intros Hn. rewrite length_app, newest_length. simpl.
  destruct (Nat.ltb_spec n (Nat.min n (List.length stack) + 1)) as [H | H].
  - assert (Hl : (n <= List.length stack)%nat) by lia.
    unfold newest. rewrite length_app. simpl.
    replace (List.length stack + 1 - n)%nat with (S (List.length stack - n)) by lia.
    symmetry. rewrite <- tl_skipn_app by lia. reflexivity.
  - assert (Hl : (List.length stack < n)%nat) by lia.
    rewrite !newest_all; [reflexivity | rewrite length_app; simpl; lia | lia].
Qed.

Lemma saveStateImmediate_restoring (stringify : list FabricObject -> string)
    (d : Designer) :
  isRestoring d = true -> saveStateImmediate stringify d = d.
Proof.
  intros H. unfold saveStateImmediate. destruct (canvas d); [| reflexivity].
  now rewrite H.
Qed.

Lemma saveStateImmediate_same (stringify : list FabricObject -> string)
    (d : Designer) (c : Canvas) :
  canvas d = Some c ->
  top_of (undoStack d) = Some (serialized stringify (heap d) c) ->
  saveStateImmediate stringify d = d.
Proof.
  intros Hc Ht. unfold saveStateImmediate. rewrite Hc.
  destruct (isRestoring d); [reflexivity |].
  fold (serialized stringify (heap d) c). rewrite Ht.
  now rewrite String.eqb_refl.
Qed.

Lemma saveStateImmediate_differs (stringify : list FabricObject -> string)
    (d : Designer) (c : Canvas) :
  canvas d = Some c -> isRestoring d = false ->
  top_of (undoStack d) <> Some (serialized stringify (heap d) c) ->
  saveStateImmediate stringify d =
  setRedoStack []
    (setUndoStack
       (if Nat.ltb MAX_HISTORY
             (List.length (undoStack d ++ [serialized stringify (heap d) c]))
        then tl (undoStack d ++ [serialized stringify (heap d) c])
        else undoStack d ++ [serialized stringify (heap d) c]) d).
Proof.
  intros Hc Hr Ht. unfold saveStateImmediate. rewrite Hc, Hr.
  fold (serialized stringify (heap d) c).
  destruct (top_of (undoStack d)) as [t |] eqn:E; [| reflexivity].
  destruct (String.eqb_spec t (serialized stringify (heap d) c)) as [-> | Hne];
    [contradiction | reflexivity].
Qed.

Lemma newest_top (n : nat) (stack : list string) :
  (0 < n)%nat -> top_of (newest n stack) = top_of stack.
Proof.
  intros Hn. destruct (rev stack) as [| s r] eqn:E.
  - apply (f_equal (@rev string)) in E. rewrite rev_involutive in E.
    subst. reflexivity.
  - apply (f_equal (@rev string)) in E. rewrite rev_involutive in E.
    simpl in E. subst stack. destruct n as [| n]; [lia |].
    now rewrite top_of_newest, top_of_app.
Qed.

(** A run of captures, each of a scene whose serialization differs from the
    one captured before it, leaves the [MAX_HISTORY] newest snapshots. *)
Lemma captureAll_newest (stringify : list FabricObject -> string)
    (scenes : list ((Ref -> FabricObject) * Canvas))
    (d : Designer) (all : list string) :
  isRestoring d = false ->
  undoStack d = newest MAX_HISTORY all ->
  eachDiffers (top_of all)
              (map (fun scene => serialized stringify (fst scene) (snd scene))
                   scenes) ->
  undoStack (captureAll stringify scenes d) =
  newest MAX_HISTORY
    (all ++ map (fun scene => serialized stringify (fst scene) (snd scene))
                scenes) /\
  isRestoring (captureAll stringify scenes d) = false /\
  (scenes <> [] -> redoStack (captureAll stringify scenes d) = []).
Proof.
  revert d all. induction scenes as [| scene scenes IH]; intros d all Hr Hu Hd.
  - simpl. rewrite app_nil_r. repeat split; [exact Hu | exact Hr | congruence].
  - simpl in Hd. destruct Hd as [Hne Hd]. cbn [captureAll fold_left map].
    fold (captureAll stringify scenes
            (saveStateImmediate stringify (withScene scene d))).
    set (s := serialized stringify (fst scene) (snd scene)) in *.
    assert (E : saveStateImmediate stringify (withScene scene d) =
                setRedoStack []
                  (setUndoStack (newest MAX_HISTORY (all ++ [s]))
                                (withScene scene d))).
    { rewrite (saveStateImmediate_differs stringify (withScene scene d) (snd scene));
        cbn [withScene setHeap setCanvas canvas heap undoStack isRestoring];
        [| reflexivity | exact Hr |].
      - fold s. rewrite Hu.
        rewrite (newest_push MAX_HISTORY all s) by (unfold MAX_HISTORY; lia).
        reflexivity.
      - fold s. rewrite Hu, newest_top by (unfold MAX_HISTORY; lia). exact Hne. }
    rewrite E.
    destruct (IH (setRedoStack []
                    (setUndoStack (newest MAX_HISTORY (all ++ [s]))
                                  (withScene scene d)))
                 (all ++ [s])) as (H1 & H2 & H3).
    + exact Hr.
    + reflexivity.
    + now rewrite top_of_app.
    + rewrite <- app_assoc in H1. split; [exact H1 | split; [exact H2 |]].
      intros _. destruct scenes as [| scene' scenes'].
      * reflexivity.
      * apply H3. discriminate.
Qed.

(** C7, as the code has it.  While a restore is under way, and before the
    canvas is there, [saveStateImmediate] does nothing, whatever the scene.
    With the canvas there and no restore under way, it leaves the whole
    state as it is (the redo stack too) when the serialized scene equals the
    top of the undo stack; otherwise it pushes the snapshot, drops the
    oldest entry when that makes more than [MAX_HISTORY] and empties the
    redo stack.  A run of captures of scenes that each differ from the one
    before, begun on an empty undo stack, leaves the [MAX_HISTORY] newest
    snapshots: 20 out of 25. *)
Theorem saveStateImmediate_captures_unless_restoring
    (stringify : list FabricObject -> string) (d : Designer) :
  let d' := saveStateImmediate stringify d in
  (isRestoring d = true -> d' = d) /\
  (canvas d = None -> d' = d) /\
  (forall c, canvas d = Some c -> isRestoring d = false ->
     let state := serialized stringify (heap d) c in
     (top_of (undoStack d) = Some state -> d' = d) /\
     (top_of (undoStack d) <> Some state ->
        undoStack d' =
          (if Nat.ltb MAX_HISTORY (List.length (undoStack d ++ [state]))
           then tl (undoStack d ++ [state])
           else undoStack d ++ [state]) /\
        ((List.length (undoStack d) <= MAX_HISTORY)%nat ->
         undoStack d' = newest MAX_HISTORY (undoStack d ++ [state])) /\
        redoStack d' = [] /\
        canvas d' = canvas d /\ heap d' = heap d /\
        isRestoring d' = false /\ loading d' = loading d) /\
     (forall scenes,
        undoStack d = [] ->
        let states :=
          map (fun scene => serialized stringify (fst scene) (snd scene))
              scenes in
        eachDiffers None states ->
        undoStack (captureAll stringify scenes d) = newest MAX_HISTORY states /\
        (List.length scenes = 25%nat ->
         undoStack (captureAll stringify scenes d) = skipn 5 states /\
         List.length (undoStack (captureAll stringify scenes d)) = 20%nat))).
Proof.
  intros d'. split; [| split].
  - intros Hr. now apply saveStateImmediate_restoring.
  - intros Hc. subst d'. unfold saveStateImmediate. now rewrite Hc.
  - intros c Hc Hr state. split; [| split].
    + intros Ht. now apply (saveStateImmediate_same stringify d c).
    + intros Ht. subst d'.
      rewrite (saveStateImmediate_differs stringify d c Hc Hr Ht).
      fold state. cbn. repeat split; try assumption.
      intros Hl. rewrite <- (newest_push MAX_HISTORY (undoStack d) state)
        by (unfold MAX_HISTORY; lia).
      now rewrite (newest_all MAX_HISTORY (undoStack d) Hl).
    + intros scenes Hu states Hd.
      destruct (captureAll_newest stringify scenes d [] Hr) as (H1 & _).
      * now rewrite Hu.
      * exact Hd.
      * simpl in H1. fold states in H1. split; [exact H1 |].
        intros Hl. rewrite H1. unfold newest, states.
        rewrite length_map, Hl. split; [reflexivity |].
        rewrite length_skipn, length_map, Hl. reflexivity.
Qed.

Lemma saveStateImmediate_captures_unless_restoring_witness :
  undoStack (captureAll namesOf (map sceneNumber (seq 1 25)) freshDesigner) =
  map letters (seq 6 20) /\
  saveStateImmediate namesOf restoringDesigner = restoringDesigner.
Proof.
  split.
  - destruct (saveStateImmediate_captures_unless_restoring namesOf freshDesigner)
      as (_ & _ & H).
    destruct (H (snd (sceneNumber 1)) eq_refl eq_refl) as (_ & _ & H').
    destruct (H' (map sceneNumber (seq 1 25)) eq_refl) as (_ & H25).
    + vm_compute. repeat split; discriminate.
    + destruct (H25 eq_refl) as (E & _). rewrite E. vm_compute. reflexivity.
  - destruct (saveStateImmediate_captures_unless_restoring
                namesOf restoringDesigner) as (H & _).
    apply H. reflexivity.
Defined.

(** C7 as the specification states it fails while a restore is under way: the
    serialized scene differs from the top of the undo stack, and yet nothing
    is pushed and the redo stack is not emptied. *)
Lemma saveStateImmediate_ignored_while_restoring :
  let d := restoringDesigner in
  let state := serialized namesOf (heap d) (snd (sceneNumber 2)) in
  canvas d = Some (snd (sceneNumber 2)) /\
  top_of (undoStack d) <> Some state /\
  undoStack (saveStateImmediate namesOf d) <> undoStack d ++ [state] /\
  redoStack (saveStateImmediate namesOf d) <> [].
Proof.
  vm_compute. repeat split; discriminate.
Qed.

(** Projections of field updates. *)
Ltac hist_simpl :=
  cbn [canvas heap nextRef undoStack redoStack isRestoring saveStateTimeout
       loading restoreState setCanvas setHeap setNextRef setUndoStack
       setRedoStack setIsRestoring setSaveStateTimeout setLoading].

Lemma undo_short (d : Designer) :
  (List.length (undoStack d) <= 1)%nat -> undo d = d.
Proof.
  intros H. unfold undo. rewrite <- length_rev in H.
  destruct (rev (undoStack d)) as [| a [| b l]]; simpl in H; [reflexivity .. | lia].
Qed.

Lemma undo_two (d : Designer) (older : list string) (s0 s1 : string) :
  undoStack d = older ++ [s0; s1] ->
  undo d = restoreState s0
             (setRedoStack (redoStack d ++ [s1])
                           (setUndoStack (older ++ [s0]) d)).
Proof.
  intros H. unfold undo. rewrite H, rev_app_distr. simpl.
  now rewrite rev_involutive.
Qed.

Lemma redo_one (d : Designer) (older : list string) (s : string) :
  redoStack d = older ++ [s] ->
  redo d = restoreState s
             (setUndoStack (undoStack d ++ [s]) (setRedoStack older d)).
Proof.
  intros H. unfold redo. rewrite H, rev_app_distr. simpl.
  now rewrite rev_involutive.
Qed.

(** After a push onto a stack that was not empty, the two entries on top are
    the old top and the pushed one, whether or not the oldest was dropped. *)
Lemma pushed_on_top (older : list string) (s0 s1 : string) :
  exists older',
    (if Nat.ltb MAX_HISTORY (List.length ((older ++ [s0]) ++ [s1]))
     then tl ((older ++ [s0]) ++ [s1])
     else (older ++ [s0]) ++ [s1]) = older' ++ [s0; s1].
Proof.
  rewrite <- app_assoc. simpl.
  destruct (Nat.ltb MAX_HISTORY (List.length (older ++ [s0; s1]))) eqn:E.
  - destruct older as [| a older].
    + apply Nat.ltb_lt in E. simpl in E. unfold MAX_HISTORY in E. lia.
    + exists older. reflexivity.
  - exists older. reflexivity.
Qed.

(** C8.  Let a change be captured on top of a snapshot [s0].  Then [undo]
    hands exactly [s0] to [restoreState] and leaves it on top of the undo
    stack; [redo] right after hands over the snapshot of the change and puts
    the two stacks back as the capture left them.  With at most one entry on
    the undo stack [undo] does nothing. *)
Theorem undo_redo_restore_snapshots
    (stringify : list FabricObject -> string) (d : Designer) (c : Canvas)
    (older : list string) (s0 : string) :
  canvas d = Some c -> isRestoring d = false ->
  undoStack d = older ++ [s0] ->
  let s1 := serialized stringify (heap d) c in
  s1 <> s0 ->
  let d1 := saveStateImmediate stringify d in
  let d2 := undo d1 in
  let d3 := redo d2 in
  (top_of (undoStack d1) = Some s1 /\
   top_of (undoStack d2) = Some s0 /\ redoStack d2 = [s1] /\
   loading d2 = loading d ++ [s0] /\ isRestoring d2 = true) /\
  (undoStack d3 = undoStack d1 /\ redoStack d3 = [] /\
   loading d3 = loading d ++ [s0; s1] /\ isRestoring d3 = true) /\
  (forall d0, (List.length (undoStack d0) <= 1)%nat -> undo d0 = d0).
Proof.
  intros Hc Hr Hu s1 Hne d1 d2 d3.
  assert (E1 : exists older',
             d1 = setRedoStack [] (setUndoStack (older' ++ [s0; s1]) d)).
  { subst d1. rewrite (saveStateImmediate_differs stringify d c Hc Hr).
    - fold s1. rewrite Hu.
      destruct (pushed_on_top older s0 s1) as (older' & ->). eauto.
    - rewrite Hu, top_of_app. fold s1. congruence. }
  destruct E1 as (older' & E1).
  assert (E2 : d2 = restoreState s0
                      (setRedoStack [s1] (setUndoStack (older' ++ [s0]) d1))).
  { subst d2. rewrite (undo_two d1 older' s0 s1) by (rewrite E1; reflexivity).
    rewrite E1. reflexivity. }
  assert (E3 : d3 = restoreState s1
                      (setUndoStack ((older' ++ [s0]) ++ [s1])
                                    (setRedoStack [] d2))).
  { subst d3. rewrite (redo_one d2 [] s1) by (rewrite E2; reflexivity).
    rewrite E2. reflexivity. }
  split; [| split].
  - rewrite E2, E1. hist_simpl.
    replace (older' ++ [s0; s1]) with ((older' ++ [s0]) ++ [s1])
      by (now rewrite <- app_assoc).
    rewrite !top_of_app. repeat split.
  - rewrite E3, E2, E1. hist_simpl. rewrite <- !app_assoc. repeat split.
  - apply undo_short.
Qed.

Lemma undo_redo_restore_snapshots_witness :
  let d := withScene (sceneNumber 2)
                     (saveStateImmediate namesOf freshDesigner) in
  let d1 := saveStateImmediate namesOf d in
  undoStack d1 = ["a"%string; "aa"%string] /\
  loading (undo d1) = ["a"%string] /\
  loading (redo (undo d1)) = ["a"%string; "aa"%string] /\
  undoStack (redo (undo d1)) = undoStack d1.
Proof.
  destruct (undo_redo_restore_snapshots
              namesOf
              (withScene (sceneNumber 2) (saveStateImmediate namesOf freshDesigner))
              (snd (sceneNumber 2)) [] "a"%string eq_refl eq_refl eq_refl)
    as ((_ & _ & _ & H2 & _) & (H3 & _ & H4 & _) & _).
  - vm_compute. discriminate.
  - cbv zeta. split; [vm_compute; reflexivity |].
    split; [exact H2 | split; [exact H4 | exact H3]].
Defined.

(* ------------------------------------------------------------------ *)
(** ** The restoring flag *)

Lemma restoreState_pending (state : string) (d : Designer) :
  exists first pending,
    loading (restoreState state d) = first :: pending /\
    isRestoring (restoreState state d) = true.
Proof.
  unfold restoreState. hist_simpl.
  destruct (loading d) as [| a l]; simpl; eauto.
Qed.

(** C2, on the code.  [restoreState] sets the flag.  When the promise of
    [loadFromJSON] is fulfilled the [.then] callback puts the flag back to
    [false]; when the promise is rejected the flag stays [true], and a
    capture attempted afterwards is ignored. *)
Theorem restoreState_flag_after_settlement
    (stringify : list FabricObject -> string)
    (state : string) (loaded : list FabricObject) (d : Designer) :
  isRestoring (restoreState state d) = true /\
  isRestoring (loadFromJSONSettles (Fulfilled loaded) (restoreState state d))
    = false /\
  isRestoring (loadFromJSONSettles Rejected (restoreState state d)) = true /\
  saveStateImmediate stringify
    (loadFromJSONSettles Rejected (restoreState state d)) =
  loadFromJSONSettles Rejected (restoreState state d).
Proof.
  destruct (restoreState_pending state d) as (first & pending & Hl & Hr).
  assert (Hrej : isRestoring (loadFromJSONSettles Rejected (restoreState state d))
                 = true).
  { unfold loadFromJSONSettles. rewrite Hl. hist_simpl. exact Hr. }
  split; [exact Hr | split; [| split; [exact Hrej |]]].
  - unfold loadFromJSONSettles. rewrite Hl. reflexivity.
  - now apply saveStateImmediate_restoring.
Qed.

(** The flag after a rejected restore, on the sample history: one change is
    captured and undone, and the promise of that restore is rejected.  No
    promise is pending any more and the flag is still set. *)
Example restoreState_latched_sample :
  let d := undo (saveStateImmediate namesOf
                   (withScene (sceneNumber 2)
                              (saveStateImmediate namesOf freshDesigner))) in
  let d' := loadFromJSONSettles Rejected d in
  loading d' = [] /\ isRestoring d' = true.
Proof. vm_compute. split; reflexivity. Qed.

(* ------------------------------------------------------------------ *)
(** ** Canvas operations while the restoring flag is set *)

Lemma sameSheet_refl (c : Canvas) : sameSheet c c.
Proof. unfold sameSheet. auto. Qed.

Lemma sameSheet_trans (a b c : Canvas) :
  sameSheet a b -> sameSheet b c -> sameSheet a c.
Proof. unfold sameSheet. intuition congruence. Qed.


Lemma sameSheet_setObjects (l : list Ref) (c : Canvas) :
  sameSheet c (setObjects l c).
Proof. unfold sameSheet. auto. Qed.

Lemma bringBleedObjectsToFront_restoring (d : Designer) :
  isRestoring d = true -> bringBleedObjectsToFront d = d.
Proof. intros H. unfold bringBleedObjectsToFront. now rewrite H. Qed.

Lemma saveState_restoring (d : Designer) :
  isRestoring d = true -> saveState d = d.
Proof.
  intros H. unfold saveState. destruct (canvas d); [| reflexivity].
  now rewrite H.
Qed.

Lemma canvasAdd_restoring (obj : Ref) (d : Designer) (c : Canvas) :
  canvas d = Some c -> isRestoring d = true ->
  canvasAdd obj d = setCanvas (Some (setObjects (objects c ++ [obj]) c)) d.
Proof.
  intros Hc Hr. unfold canvasAdd. rewrite Hc.
  rewrite bringBleedObjectsToFront_restoring by exact Hr.
  now rewrite saveState_restoring by exact Hr.
Qed.

Lemma memRef_In (obj : Ref) (l : list Ref) :
  memRef obj l = true <-> In obj l.
Proof.
  unfold memRef. rewrite existsb_exists. split.
  - intros (x & Hin & E). apply Nat.eqb_eq in E. now subst.
  - intros H. exists obj. split; [exact H | apply Nat.eqb_refl].
Qed.

Lemma removeFirst_absent (obj : Ref) (l : list Ref) :
  ~ In obj l -> removeFirst obj l = l.
Proof.
  induction l as [| x l IH]; simpl; intros H; [reflexivity |].
  destruct (Nat.eqb_spec x obj); [tauto |]. rewrite IH; tauto.
Qed.


(** The canvas after [canvas.remove(obj)], with the flag set: the first
    occurrence of [obj] is gone, and nothing else has changed. *)
Lemma canvasRemove_restoring (obj : Ref) (d : Designer) (c : Canvas) :
  canvas d = Some c -> isRestoring d = true ->
  exists c',
    canvas (canvasRemove obj d) = Some c' /\
    objects c' = removeFirst obj (objects c) /\ sameSheet c c' /\
    heap (canvasRemove obj d) = heap d /\
    nextRef (canvasRemove obj d) = nextRef d /\
    isRestoring (canvasRemove obj d) = true.
Proof.
  intros Hc Hr. unfold canvasRemove. rewrite Hc.
  destruct (memRef obj (objects c)) eqn:E.
  - rewrite saveState_restoring by exact Hr.
    eexists. split; [reflexivity |].
    repeat split; assumption.
  - exists c. rewrite removeFirst_absent.
    + repeat split; try assumption.
    + intros H. apply memRef_In in H. congruence.
Qed.

(** Removing, one occurrence at a time, the elements that a filter has
    selected leaves the elements that the filter has rejected. *)
Lemma removeFirst_filter (p : Ref -> bool) (l pre : list Ref) :
  (forall x, In x pre -> p x = false) ->
  fold_left (fun l x => removeFirst x l) (filter p l) (pre ++ l) =
  pre ++ filter (fun x => negb (p x)) l.
Proof.
  revert pre. induction l as [| a l IH]; intros pre Hpre; simpl.
  - reflexivity.
  - destruct (p a) eqn:E; simpl.
    + assert (Hrm : removeFirst a (pre ++ a :: l) = pre ++ l).
      { clear IH. induction pre as [| b pre IHp]; simpl.
        - now rewrite Nat.eqb_refl.
        - destruct (Nat.eqb_spec b a) as [-> | Hne].
          + rewrite Hpre in E by now left. discriminate.
          + rewrite IHp; [reflexivity |]. intros x Hx. apply Hpre. now right. }
      rewrite Hrm. now apply IH.
    + replace (pre ++ a :: l) with ((pre ++ [a]) ++ l)
        by (now rewrite <- app_assoc).
      rewrite IH.
      * now rewrite <- app_assoc.
      * intros x Hx. apply in_app_or in Hx. destruct Hx as [Hx | [<- | []]]; auto.
Qed.

(** The first [forEach] of [reflowObjectsIntoSafeArea] and of [fillSheet]:
    the canvas after the removals. *)
Lemma removeAll_restoring (l : list Ref) (d : Designer) (c : Canvas) :
  canvas d = Some c -> isRestoring d = true ->
  exists c',
    canvas (fold_left (fun d obj => canvasRemove obj d) l d) = Some c' /\
    objects c' = fold_left (fun l x => removeFirst x l) l (objects c) /\
    sameSheet c c' /\
    heap (fold_left (fun d obj => canvasRemove obj d) l d) = heap d /\
    nextRef (fold_left (fun d obj => canvasRemove obj d) l d) = nextRef d /\
    isRestoring (fold_left (fun d obj => canvasRemove obj d) l d) = true.
Proof.
  revert d c. induction l as [| a l IH]; intros d c Hc Hr; simpl.
  - exists c. repeat split; try assumption.
  - destruct (canvasRemove_restoring a d c Hc Hr)
      as (c1 & Hc1 & Ho1 & Hs1 & Hh1 & Hn1 & Hr1).
    destruct (IH (canvasRemove a d) c1 Hc1 Hr1)
      as (c2 & Hc2 & Ho2 & Hs2 & Hh2 & Hn2 & Hr2).
    exists c2. rewrite Ho1 in Ho2.
    repeat split; try assumption; try congruence;
      destruct Hs1 as (? & ? & ?), Hs2 as (? & ? & ?); congruence.
Qed.

(* ------------------------------------------------------------------ *)
(** ** Reflow *)

(** The test of [reflowObjectsIntoSafeArea] fails exactly when the bounding
    box lies inside the safe area. *)
Lemma outOfBounds_false (safeRect : Rect) (obj : FabricObject) :
  outOfBounds safeRect obj = false <-> within (objectBox obj) safeRect.
Proof.
  unfold outOfBounds, objectBox, boundsRect, within.
  cbn [left top right bottom].
  rewrite !orb_false_iff, !Qltb_false, !Qgtb_false. tauto.
Qed.


Lemma sameShapes_refl (d : Designer) : sameShapes d d.
Proof. intros r. auto. Qed.

Lemma sameShapes_trans (a b c : Designer) :
  sameShapes a b -> sameShapes b c -> sameShapes a c.
Proof.
  intros H1 H2 r.
  destruct (H1 r) as (? & ? & ? & ?), (H2 r) as (? & ? & ? & ?).
  repeat split; congruence.
Qed.

(** What a call of [arrangeObjectOnCanvas] keeps. *)
Lemma arrange_keeps (d : Designer) (o : Ref) :
  let d' := fst (arrangeObjectOnCanvas (Some o) d) in
  canvas d' = canvas d /\ nextRef d' = nextRef d /\
  isRestoring d' = isRestoring d /\
  (forall r, r <> o -> heap d' r = heap d r) /\
  sameShapes d d'.
Proof.
  destruct (arrange_moves d o) as (x & y & [E | E]); cbv zeta; rewrite E.
  - repeat split.
  - unfold sameShapes. hist_simpl. repeat split.
    + intros r Hr. now apply store_other.
    + unfold store. destruct (Nat.eqb_spec r o) as [-> | Hne]; reflexivity.
    + unfold store. destruct (Nat.eqb_spec r o) as [-> | Hne]; reflexivity.
    + unfold store. destruct (Nat.eqb_spec r o) as [-> | Hne]; reflexivity.
    + unfold store. destruct (Nat.eqb_spec r o) as [-> | Hne]; reflexivity.
Qed.

Lemma reflowOne_fst (d : Designer) (failed : list Ref) (obj : Ref) :
  fst (reflowOne (d, failed) obj) =
  fst (arrangeObjectOnCanvas (Some obj) (canvasAdd obj d)).
Proof.
  unfold reflowOne.
  destruct (arrangeObjectOnCanvas (Some obj) (canvasAdd obj d)) as [d' [|]];
    reflexivity.
Qed.

Lemma getUserObjects_In (h : Ref -> FabricObject) (c : Canvas) (r : Ref) :
  In r (getUserObjects h c) <->
  In r (objects c) /\ isBleedObject (h r) = false.
Proof.
  unfold getUserObjects. rewrite filter_In, negb_true_iff. tauto.
Qed.

Lemma filter_twice {A : Type} (p q : A -> bool) (l : list A) :
  filter p (filter q l) = filter (fun x => q x && p x) l.
Proof.
  induction l as [| a l IH]; simpl; [reflexivity |].
  destruct (q a); simpl; [| exact IH].
  destruct (p a); now rewrite IH.
Qed.


Lemma filter_all {A : Type} (p : A -> bool) (l : list A) :
  (forall x, In x l -> p x = true) -> filter p l = l.
Proof.
  induction l as [| a l IH]; simpl; intros H; [reflexivity |].
  rewrite (H a) by now left. f_equal. apply IH. intros x Hx. apply H. now right.
Qed.

Lemma saveState_keeps (d : Designer) :
  canvas (saveState d) = canvas d /\ heap (saveState d) = heap d /\
  isRestoring (saveState d) = isRestoring d /\
  nextRef (saveState d) = nextRef d.
Proof.
  unfold saveState. destruct (canvas d) eqn:E; [| now rewrite E].
  destruct (isRestoring d) eqn:R; hist_simpl; now rewrite ?E, ?R.
Qed.


(** One step of the second [forEach] of [reflowObjectsIntoSafeArea]: the
    object is back on the canvas, at the end of the list, and no other
    object has been written. *)
Lemma reflowOne_keeps (d : Designer) (c : Canvas) (failed : list Ref)
    (obj : Ref) :
  canvas d = Some c -> isRestoring d = true ->
  exists c',
    canvas (fst (reflowOne (d, failed) obj)) = Some c' /\ sameSheet c c' /\
    objects c' = objects c ++ [obj] /\
    isRestoring (fst (reflowOne (d, failed) obj)) = true /\
    sameShapes d (fst (reflowOne (d, failed) obj)) /\
    (forall r, r <> obj -> heap (fst (reflowOne (d, failed) obj)) r = heap d r).
Proof.
  intros Hc Hr. rewrite reflowOne_fst, (canvasAdd_restoring obj d c Hc Hr).
  set (c1 := setObjects (objects c ++ [obj]) c).
  destruct (arrange_keeps (setCanvas (Some c1) d) obj) as (Kc & _ & Kr & Kh & Ks).
  cbv zeta in *. exists c1.
  split; [now rewrite Kc |].
  split; [apply sameSheet_setObjects |].
  split; [reflexivity |].
  split; [now rewrite Kr |].
  split; [exact Ks | exact Kh].
Qed.

Lemma reflow_fold_keeps (todo : list Ref) :
  forall (d : Designer) (c : Canvas) (failed : list Ref),
  canvas d = Some c -> isRestoring d = true ->
  exists c',
    canvas (fst (fold_left reflowOne todo (d, failed))) = Some c' /\
    sameSheet c c' /\ objects c' = objects c ++ todo /\
    isRestoring (fst (fold_left reflowOne todo (d, failed))) = true /\
    sameShapes d (fst (fold_left reflowOne todo (d, failed))) /\
    (forall r, ~ In r todo ->
       heap (fst (fold_left reflowOne todo (d, failed))) r = heap d r).
Proof.
  induction todo as [| obj todo IH]; intros d c failed Hc Hr.
  - exists c. rewrite app_nil_r.
    split; [exact Hc | split; [apply sameSheet_refl |]].
    split; [reflexivity | split; [exact Hr |]].
    split; [apply sameShapes_refl | reflexivity].
  - cbn [fold_left].
    destruct (reflowOne_keeps d c failed obj Hc Hr)
      as (c1 & Hc1 & Hs1 & Ho1 & Hr1 & Hsh1 & Hh1).
    destruct (reflowOne (d, failed) obj) as [d1 failed1].
    cbn [fst] in *.
    destruct (IH d1 c1 failed1 Hc1 Hr1)
      as (c2 & Hc2 & Hs2 & Ho2 & Hr2 & Hsh2 & Hh2).
    exists c2. split; [exact Hc2 |].
    split; [eapply sameSheet_trans; eauto |].
    split; [rewrite Ho2, Ho1, <- app_assoc; reflexivity |].
    split; [exact Hr2 |].
    split; [eapply sameShapes_trans; eauto |].
    intros r Hnot. rewrite Hh2, Hh1; [reflexivity | |];
      intros H; apply Hnot; [left; congruence | now right].
Qed.

(** The state that [reflowObjectsIntoSafeArea] leaves.  The objects that
    were out of bounds stand at the end of the canvas list, in their order,
    behind them the other objects in theirs; no object but those that were
    out of bounds has been written; and the flag has its old value. *)
Lemma reflow_result (d : Designer) (c : Canvas) :
  canvas d = Some c -> invalidSafeRect (safeRectOf c) = false ->
  exists c',
    canvas (fst (reflowObjectsIntoSafeArea d)) = Some c' /\
    sameSheet c c' /\
    objects c' =
      filter (fun r => negb (displaced d c r)) (objects c)
      ++ outOfBoundsObjects d c /\
    (forall r, ~ In r (outOfBoundsObjects d c) ->
               heap (fst (reflowObjectsIntoSafeArea d)) r = heap d r) /\
    sameShapes d (fst (reflowObjectsIntoSafeArea d)) /\
    isRestoring (fst (reflowObjectsIntoSafeArea d)) = isRestoring d.
Proof.
  intros Hc Hv.
  assert (Hout : outOfBoundsObjects d c = filter (displaced d c) (objects c)).
  { unfold outOfBoundsObjects, getUserObjects. apply filter_twice. }
  unfold reflowObjectsIntoSafeArea. rewrite Hc, Hv.
  destruct (Nat.eqb_spec (List.length (outOfBoundsObjects d c)) 0) as [E | E].
  - apply length_zero_iff_nil in E. exists c. cbn [fst].
    split; [exact Hc | split; [apply sameSheet_refl |]].
    split; [| split; [reflexivity | split; [apply sameShapes_refl | reflexivity]]].
    rewrite E, app_nil_r. symmetry. apply filter_all.
    intros r Hin. apply negb_true_iff.
    destruct (displaced d c r) eqn:Hd; [| reflexivity].
    assert (Hmem : In r (outOfBoundsObjects d c))
      by (rewrite Hout; apply filter_In; auto).
    rewrite E in Hmem. destruct Hmem.
  - set (d1 := setIsRestoring true d).
    change (outOfBoundsObjects d c) with (outOfBoundsObjects d1 c) in *.
    change (displaced d c) with (displaced d1 c) in *.
    destruct (removeAll_restoring (outOfBoundsObjects d1 c) d1 c Hc eq_refl)
      as (c2 & Hc2 & Ho2 & Hs2 & Hh2 & _ & Hr2).
    set (d2 := fold_left (fun d obj => canvasRemove obj d)
                         (outOfBoundsObjects d1 c) d1) in *.
    destruct (reflow_fold_keeps (outOfBoundsObjects d1 c) d2 c2 [] Hc2 Hr2)
      as (c3 & Hc3 & Hs3 & Ho3 & Hr3 & Hsh3 & Hh3).
    destruct (fold_left reflowOne (outOfBoundsObjects d1 c) (d2, []))
      as [d3 failed].
    cbn [fst] in *.
    rewrite (bringBleedObjectsToFront_restoring d3 Hr3).
    destruct (saveState_keeps (setIsRestoring (isRestoring d) d3))
      as (K1 & K2 & K3 & _).
    assert (Hheap : heap d2 = heap d) by exact Hh2.
    exists c3.
    split; [destruct (negb (isRestoring d)); cbn [fst]; [rewrite K1 |]; exact Hc3 |].
    split; [eapply sameSheet_trans; eauto |].
    split; [| split; [| split]].
    + rewrite Ho3, Ho2. f_equal. rewrite Hout at 1.
      apply (removeFirst_filter (displaced d1 c) (objects c) []).
      intros x [].
    + intros r Hnot.
      destruct (negb (isRestoring d)); cbn [fst]; rewrite ?K2;
        cbn [heap setIsRestoring]; rewrite (Hh3 r Hnot); now rewrite Hheap.
    + intros r. specialize (Hsh3 r). rewrite Hheap in Hsh3.
      destruct (negb (isRestoring d)); cbn [fst]; rewrite ?K2; exact Hsh3.
    + destruct (negb (isRestoring d)); cbn [fst]; rewrite ?K3; reflexivity.
Qed.






(* ------------------------------------------------------------------ *)
(** ** The grid of cells *)








(* ------------------------------------------------------------------ *)
(** ** Fill sheet *)

Lemma invalidSafeRect_false (safeRect : Rect) :
  invalidSafeRect safeRect = false <-> proper safeRect.
Proof.
  unfold invalidSafeRect, proper.
  rewrite orb_false_iff, !Qle_bool_false. tauto.
Qed.

(** A call that returns [true] has chosen a rectangle of the free list in
    which the scaled size fits, and has put the centre of the object half
    the scaled size away from the top-left corner of that rectangle. *)
Lemma arrange_true_slot (d : Designer) (c : Canvas) (o : Ref) :
  canvas d = Some c ->
  snd (arrangeObjectOnCanvas (Some o) d) = true ->
  exists p,
    In p (freeRectsOf d c o) /\ proper p /\ within p (safeRectOf c) /\
    fits (scaledWidth (heap d o)) (scaledHeight (heap d o)) p = true /\
    fst (getCenterPoint (heap (fst (arrangeObjectOnCanvas (Some o) d)) o))
      == left p + scaledWidth (heap d o) / 2 /\
    snd (getCenterPoint (heap (fst (arrangeObjectOnCanvas (Some o) d)) o))
      == top p + scaledHeight (heap d o) / 2.
Proof.
  intros Hc Ht.
  destruct (invalidSafeRect (safeRectOf c)) eqn:Hv.
  - rewrite (arrange_invalid d c o Hc Hv) in Ht. discriminate.
  - rewrite (arrange_valid d c o Hc Hv) in *.
    destruct (find _ _) as [p |] eqn:E; [| discriminate].
    cbn [fst setHeap heap]. rewrite store_same.
    apply find_some in E. destruct E as [Hin Hfits].
    apply (proj1 (sortRects_In _ _)) in Hin.
    destruct (computeFreeSpace_invariant _ _ _ p Hin) as (Hw & Hp & _).
    destruct (setCentered_center (left p + scaledWidth (heap d o) / 2)
                                 (top p + scaledHeight (heap d o) / 2)
                                 (heap d o)) as (Hx & Hy).
    exists p. apply invalidSafeRect_false in Hv. auto 8.
Qed.



Section FillSheetTerminates.

Variable clone : FabricObject -> option FabricObject.

(** What [clone()] yields is not a decoration and has a size that is not
    negative. *)
Hypothesis clone_user :
  forall base cloned, clone base = Some cloned ->
    isBleedObject cloned = false /\
    0 <= scaledWidth cloned /\ 0 <= scaledHeight cloned.

Variable c0 : Canvas.





End FillSheetTerminates.









(** On the sample sheet the image of 1000 x 700 fits four times: three rounds
    place one clone each, and the fourth round, which places none, ends the
    loop. *)
Example fillSheet_poster :
  fillSheet sampleClone 3 posterDesigner = None /\
  (exists d, fillSheet sampleClone 4 posterDesigner = Some d /\
             match canvas d with
             | Some c => objects c = [0%nat; 1%nat; 2%nat; 3%nat]
             | None => False
             end /\
             nextRef d = 5%nat).
Proof.
  split; [vm_compute; reflexivity |].
  eexists. split; [vm_compute; reflexivity |].
  split; reflexivity.
Qed.

(* ================================================================== *)
(** * Further properties *)

(* ------------------------------------------------------------------ *)
(** ** Clamping and pruning *)

(** X1.  [clampRect] returns [null] exactly when the rectangle and the bounds
    share no region of positive area.  Otherwise its result is their
    intersection: a rectangle of positive size, inside both, that holds
    exactly the points of both. *)
Theorem clampRect_is_intersection (rect bounds : Rect) :
  (clampRect rect bounds = None <-> ~ positiveOverlap rect bounds) /\
  (forall c, clampRect rect bounds = Some c ->
     proper c /\ within c rect /\ within c bounds /\
     forall x y, inside c x y <-> inside rect x y /\ inside bounds x y).
Proof.
  split.
  - rewrite <- no_overlap_not_positive. unfold clampRect, degenerate.
    cbn [left top right bottom intersection].
    destruct (_ || _); split; congruence.
  - intros c Hc. apply clampRect_Some in Hc.
    destruct Hc as (-> & Hp & Hb & Hr).
    split; [exact Hp | split; [exact Hr | split; [exact Hb |]]].
    intros x y. unfold inside. cbn [left top right bottom intersection].
    rewrite !Q.max_lub_iff, !Q.min_glb_iff. tauto.
Qed.

Lemma clampRect_is_intersection_witness :
  clampRect (mkRect 0 0 50 30) (mkRect 10 10 100 40) = Some (mkRect 10 10 50 30) /\
  within (mkRect 10 10 50 30) (mkRect 0 0 50 30).
Proof.
  assert (E : clampRect (mkRect 0 0 50 30) (mkRect 10 10 100 40) =
              Some (mkRect 10 10 50 30)) by reflexivity.
  split; [exact E |].
  destruct (clampRect_is_intersection (mkRect 0 0 50 30) (mkRect 10 10 100 40))
    as (_ & H).
  destruct (H _ E) as (_ & Hw & _). exact Hw.
Defined.

Lemma filter_length_lt {A : Type} (f g : A -> bool) (l : list A) :
  (forall x, In x l -> f x = true -> g x = true) ->
  (exists x, In x l /\ g x = true /\ f x = false) ->
  (List.length (filter f l) < List.length (filter g l))%nat.
Proof.
  induction l as [| a l IH]; intros Hsub (x & Hin & Hg & Hf); [destruct Hin |].
  assert (Hle : forall l', (forall y, In y l' -> f y = true -> g y = true) ->
                           (List.length (filter f l') <= List.length (filter g l'))%nat).
  { clear. induction l' as [| b l' IH]; intros H; simpl; [lia |].
    assert (IH' := IH (fun y Hy => H y (or_intror Hy))).
    destruct (f b) eqn:Ef.
    - rewrite (H b (or_introl eq_refl) Ef). simpl. lia.
    - destruct (g b); simpl; lia. }
  simpl. destruct Hin as [-> | Hin].
  - rewrite Hg, Hf. simpl.
    specialize (Hle l (fun y Hy => Hsub y (or_intror Hy))). lia.
  - assert (IH' : (List.length (filter f l) < List.length (filter g l))%nat).
    { apply IH; [intros y Hy; apply Hsub; now right | eauto]. }
    destruct (f a) eqn:Ef.
    + rewrite (Hsub a (or_introl eq_refl) Ef). simpl. lia.
    + destruct (g a); simpl; lia.
Qed.

Lemma containsRect_trans (a b c : Rect) :
  containsRect a b = true -> containsRect b c = true -> containsRect a c = true.
Proof.
  rewrite !containsRect_true. intros H1 H2. eapply within_trans; eauto.
Qed.

Lemma pruneContainedRects_covers_bounded (rects : list Rect) (n : nat) :
  (forall i j a b, i <> j ->
     nth_error rects i = Some a -> nth_error rects j = Some b ->
     ~ (within a b /\ within b a)) ->
  forall r, In r rects ->
    (List.length (filter (fun o => containsRect o r) rects) <= n)%nat ->
    exists k, In k (pruneContainedRects rects) /\ within r k.
Proof.
  intros Hdistinct. induction n as [| n IH]; intros r Hin Hn.
  - exfalso.
    assert (H : In r (filter (fun o => containsRect o r) rects))
      by (apply filter_In; split; [exact Hin | apply containsRect_refl]).
    destruct (filter _ rects); [destruct H | simpl in Hn; lia].
  - apply In_nth_error in Hin. destruct Hin as (i & Hi).
    destruct (keeps rects (i, r)) eqn:Hk.
    + exists r. split; [| apply within_refl].
      apply pruneContainedRects_In. exists i. split; [exact Hi |].
      now apply keeps_true.
    + assert (Hex : exists m o, m <> i /\ nth_error rects m = Some o /\
                                containsRect o r = true).
      { unfold keeps in Hk. apply negb_false_iff, existsb_exists in Hk.
        destruct Hk as ([m o] & Hm & Hc). apply indexed_In in Hm.
        destruct (Nat.eqb_spec i m); [discriminate |]. exists m, o. auto. }
      destruct Hex as (m & o & Hne & Hm & Hc).
      assert (Hno : containsRect r o = false).
      { destruct (containsRect r o) eqn:E; [| reflexivity]. exfalso.
        apply (Hdistinct i m r o); [congruence | exact Hi | exact Hm |].
        split; now apply containsRect_true. }
      destruct (IH o) as (k & Hk' & Hw).
      * eapply nth_error_In; eauto.
      * assert (Hlt : (List.length (filter (fun x => containsRect x o) rects)
                       < List.length (filter (fun x => containsRect x r) rects))%nat).
        { apply filter_length_lt.
          - intros x _ Hx. eapply containsRect_trans; eauto.
          - exists r. split; [eapply nth_error_In; eauto |].
            split; [apply containsRect_refl | exact Hno]. }
        lia.
      * exists k. split; [exact Hk' |].
        apply containsRect_true in Hc. eapply within_trans; eauto.
Qed.

(** X2.  When no two positions of the input hold rectangles that contain each
    other, [pruneContainedRects] gives up no free space: every rectangle of
    the input lies inside a rectangle of the result. *)
Theorem pruneContainedRects_covers (rects : list Rect) (r : Rect) :
  (forall i j a b, i <> j ->
     nth_error rects i = Some a -> nth_error rects j = Some b ->
     ~ (within a b /\ within b a)) ->
  In r rects ->
  exists k, In k (pruneContainedRects rects) /\ within r k.
Proof.
  intros Hdistinct Hin.
  eapply pruneContainedRects_covers_bounded; eauto.
Qed.

Lemma pruneContainedRects_covers_witness :
  let a := mkRect 0 0 100 40 in
  let b := mkRect 10 10 50 30 in
  exists k, In k (pruneContainedRects [a; b]) /\ within b k.
Proof.
  apply (pruneContainedRects_covers [mkRect 0 0 100 40; mkRect 10 10 50 30]
                                    (mkRect 10 10 50 30)).
  - intros i j x y Hne Hi Hj [H1 H2].
    destruct i as [| [| i]]; destruct j as [| [| j]];
      try (destruct i; discriminate); try (destruct j; discriminate);
      try congruence; simpl in Hi, Hj;
      injection Hi as <-; injection Hj as <-;
      unfold within in H1, H2; simpl in H1, H2; lra.
  - simpl. auto.
Defined.

(* ------------------------------------------------------------------ *)
(** ** The order of the free list and the rectangle that is chosen *)

Lemma compareRects_before (a b : Rect) :
  Qle_bool (compareRects a b) 0 = true <-> comesBefore a b.
Proof.
  unfold compareRects, comesBefore. rewrite Qle_bool_iff.
  destruct (Qeq_bool (top a - top b) 0) eqn:E.
  - apply Qeq_bool_iff in E. split; intros H; [right | ]; lra.
  - apply Qeq_bool_neq in E. split; intros H; [left |]; lra.
Qed.

Lemma compareRects_after (a b : Rect) :
  Qle_bool (compareRects a b) 0 = false -> comesBefore b a.
Proof.
  intros H. unfold compareRects, comesBefore in *. apply Qle_bool_false in H.
  destruct (Qeq_bool (top a - top b) 0) eqn:E.
  - apply Qeq_bool_iff in E. right. lra.
  - left. lra.
Qed.

Lemma comesBefore_refl (a : Rect) : comesBefore a a.
Proof. unfold comesBefore. right. lra. Qed.

Lemma comesBefore_trans (a b c : Rect) :
  comesBefore a b -> comesBefore b c -> comesBefore a c.
Proof.
  unfold comesBefore.
  intros [H1 | H1] [H2 | H2]; [left | left | left | right]; lra.
Qed.

Lemma insertRect_sorted (a : Rect) (l : list Rect) :
  StronglySorted comesBefore l -> StronglySorted comesBefore (insertRect a l).
Proof.
  induction l as [| b l IH]; intros Hs; simpl.
  - repeat constructor.
  - inversion Hs as [| ? ? Hs' Hall]; subst.
    destruct (Qle_bool (compareRects a b) 0) eqn:E.
    + apply compareRects_before in E. constructor; [exact Hs |].
      constructor; [exact E |].
      eapply Forall_impl; [| exact Hall].
      intros x Hx. eapply comesBefore_trans; eauto.
    + apply compareRects_after in E. constructor; [now apply IH |].
      apply Forall_forall. intros x Hx. apply insertRect_In in Hx.
      destruct Hx as [-> | Hx]; [exact E |].
      rewrite Forall_forall in Hall. now apply Hall.
Qed.

Lemma sortRects_sorted (l : list Rect) :
  StronglySorted comesBefore (sortRects l).
Proof.
  induction l as [| a l IH]; simpl; [constructor |].
  now apply insertRect_sorted.
Qed.

(** In a sorted list [find] returns an element that comes before every other
    element that passes the test. *)
Lemma find_sorted_first (f : Rect -> bool) (l : list Rect) (p : Rect) :
  StronglySorted comesBefore l -> find f l = Some p ->
  forall r, In r l -> f r = true -> comesBefore p r.
Proof.
  induction l as [| a l IH]; intros Hs Hf r Hin Hr; [destruct Hin |].
  inversion Hs as [| ? ? Hs' Hall]; subst. simpl in Hf.
  destruct (f a) eqn:Ea.
  - injection Hf as <-. destruct Hin as [<- | Hin]; [apply comesBefore_refl |].
    rewrite Forall_forall in Hall. now apply Hall.
  - destruct Hin as [<- | Hin]; [congruence |]. now apply IH.
Qed.

(** The rectangle that [arrangeObjectOnCanvas] has chosen when it returns
    [true]. *)
Lemma arrange_true_chosen (d : Designer) (c : Canvas) (o : Ref) :
  canvas d = Some c ->
  snd (arrangeObjectOnCanvas (Some o) d) = true ->
  invalidSafeRect (safeRectOf c) = false /\
  exists p,
    find (fits (scaledWidth (heap d o)) (scaledHeight (heap d o)))
         (sortRects (freeRectsOf d c o)) = Some p /\
    heap (fst (arrangeObjectOnCanvas (Some o) d)) o =
    setCentered (left p + scaledWidth (heap d o) / 2)
                (top p + scaledHeight (heap d o) / 2) (heap d o).
Proof.
  intros Hc Ht.
  destruct (invalidSafeRect (safeRectOf c)) eqn:Hv.
  - rewrite (arrange_invalid d c o Hc Hv) in Ht. discriminate.
  - split; [reflexivity |]. rewrite (arrange_valid d c o Hc Hv) in *.
    destruct (find _ _) as [p |] eqn:E; [| discriminate].
    exists p. split; [reflexivity |].
    cbn [fst setHeap heap]. apply store_same.
Qed.

(** X3.  "Prioritizes top-left placement": when [arrangeObjectOnCanvas] returns
    [true], it has chosen a free rectangle in which the scaled size of the
    object fits, such that no free rectangle in which it fits lies higher,
    or as high and further left; and it has set the origin of the object to
    its centre and put it half the scaled size away from the top-left corner
    of that rectangle. *)
Theorem arrangeObjectOnCanvas_top_left_first
    (d : Designer) (c : Canvas) (o : Ref) :
  canvas d = Some c ->
  snd (arrangeObjectOnCanvas (Some o) d) = true ->
  exists p,
    In p (freeRectsOf d c o) /\
    fits (scaledWidth (heap d o)) (scaledHeight (heap d o)) p = true /\
    heap (fst (arrangeObjectOnCanvas (Some o) d)) o =
      setCentered (left p + scaledWidth (heap d o) / 2)
                  (top p + scaledHeight (heap d o) / 2) (heap d o) /\
    forall r, In r (freeRectsOf d c o) ->
      fits (scaledWidth (heap d o)) (scaledHeight (heap d o)) r = true ->
      comesBefore p r.
Proof.
  intros Hc Ht.
  destruct (arrange_true_chosen d c o Hc Ht) as (_ & p & Hfind & Hheap).
  pose proof (find_some _ _ Hfind) as [Hin Hfits].
  exists p. split; [now apply (proj1 (sortRects_In _ _)) |].
  split; [exact Hfits | split; [exact Hheap |]].
  intros r Hr Hfr.
  apply (find_sorted_first _ _ p (sortRects_sorted _) Hfind r);
    [now apply sortRects_In | exact Hfr].
Qed.

Lemma arrangeObjectOnCanvas_top_left_first_witness :
  exists p,
    In p (freeRectsOf sampleDesigner sampleCanvas 1%nat) /\
    comesBefore p (mkRect 79 (782 # 2) 2401 1669).
Proof.
  destruct (arrangeObjectOnCanvas_top_left_first sampleDesigner sampleCanvas 1%nat)
    as (p & Hin & _ & _ & Hfirst).
  - reflexivity.
  - vm_compute. reflexivity.
  - exists p. split; [exact Hin |].
    apply Hfirst; [vm_compute; left; reflexivity | vm_compute; reflexivity].
Defined.

(* ------------------------------------------------------------------ *)
(** ** What [arrangeObjectOnCanvas] returns, and where it leaves the object *)

Lemma arrange_true_iff (d : Designer) (c : Canvas) (o : Ref) :
  canvas d = Some c ->
  (snd (arrangeObjectOnCanvas (Some o) d) = true <->
   invalidSafeRect (safeRectOf c) = false /\
   exists r, In r (freeRectsOf d c o) /\
             fits (scaledWidth (heap d o)) (scaledHeight (heap d o)) r = true).
Proof.
  intros Hc.
  destruct (invalidSafeRect (safeRectOf c)) eqn:Hv.
  - rewrite (arrange_invalid d c o Hc Hv). cbn [snd].
    split; [discriminate | intros [H _]; discriminate].
  - rewrite (arrange_valid d c o Hc Hv).
    destruct (find _ _) as [p |] eqn:E; cbn [snd].
    + split; [| reflexivity]. intros _. split; [reflexivity |].
      apply find_some in E. destruct E as [Hin Hf].
      exists p. split; [now apply (proj1 (sortRects_In _ _)) | exact Hf].
    + split; [discriminate |]. intros (_ & r & Hr & Hf). exfalso.
      apply (proj2 (sortRects_In _ _)) in Hr.
      rewrite (find_none _ _ E r Hr) in Hf. discriminate.
Qed.

(** X4.  [arrangeObjectOnCanvas] returns [true] exactly when the safe area is
    valid and the free list holds a rectangle in which the scaled size of
    the object fits.  When it returns [false] with a canvas and an object,
    it has set the origin of the object to its centre and put it at the
    middle of the safe area when that is valid, at the middle of the sheet
    otherwise; without a canvas or without an object it returns [false] and
    writes nothing. *)
Theorem arrangeObjectOnCanvas_result (d : Designer) (c : Canvas) (o : Ref) :
  let safeRect := safeRectOf c in
  (canvas d = Some c ->
   (snd (arrangeObjectOnCanvas (Some o) d) = true <->
    invalidSafeRect safeRect = false /\
    exists r, In r (freeRectsOf d c o) /\
              fits (scaledWidth (heap d o)) (scaledHeight (heap d o)) r = true) /\
   (snd (arrangeObjectOnCanvas (Some o) d) = false ->
    heap (fst (arrangeObjectOnCanvas (Some o) d)) o =
    if invalidSafeRect safeRect
    then setCentered (virtualWidth c / 2) (virtualHeight c / 2) (heap d o)
    else setCentered ((left safeRect + right safeRect) / 2)
                     ((top safeRect + bottom safeRect) / 2) (heap d o))) /\
  (canvas d = None -> arrangeObjectOnCanvas (Some o) d = (d, false)) /\
  arrangeObjectOnCanvas None d = (d, false).
Proof.
  cbv zeta. split; [| split].
  - intros Hc. split; [now apply arrange_true_iff |].
    destruct (invalidSafeRect (safeRectOf c)) eqn:Hv.
    + rewrite (arrange_invalid d c o Hc Hv). cbn [fst snd setHeap heap].
      intros _. apply store_same.
    + rewrite (arrange_valid d c o Hc Hv).
      destruct (find _ _) as [p |] eqn:E; cbn [fst snd setHeap heap];
        [discriminate | intros _; apply store_same].
  - intros Hc. unfold arrangeObjectOnCanvas. now rewrite Hc.
  - unfold arrangeObjectOnCanvas. destruct (canvas d); reflexivity.
Qed.

Lemma arrangeObjectOnCanvas_result_witness :
  snd (arrangeObjectOnCanvas (Some 2%nat) oversizedDesigner) = false /\
  objLeft (heap (fst (arrangeObjectOnCanvas (Some 2%nat) oversizedDesigner))
                2%nat) == 1240.
Proof.
  destruct (arrangeObjectOnCanvas_result
              oversizedDesigner (mkCanvas [2%nat] 2480 1748 1) 2%nat)
    as (H & _).
  destruct (H eq_refl) as (_ & Hfalse).
  assert (E : snd (arrangeObjectOnCanvas (Some 2%nat) oversizedDesigner) = false)
    by (vm_compute; reflexivity).
  split; [exact E |]. specialize (Hfalse E). unfold Ref in Hfalse.
  rewrite Hfalse. vm_compute. reflexivity.
Defined.

Lemma freeRectsOf_alone (d : Designer) (c : Canvas) (o : Ref) :
  blockersOf d c o = [] -> freeRectsOf d c o = [safeRectOf c].
Proof. intros H. unfold freeRectsOf. rewrite H. reflexivity. Qed.

(** X5.  On a sheet with no other object, the object is placed exactly when
    its scaled size is no larger than the safe area, and then it is put, origin
    at its centre, half the scaled size away from the top-left corner of the
    safe area. *)
Theorem arrangeObjectOnCanvas_alone (d : Designer) (c : Canvas) (o : Ref) :
  canvas d = Some c ->
  invalidSafeRect (safeRectOf c) = false ->
  blockersOf d c o = [] ->
  (snd (arrangeObjectOnCanvas (Some o) d) = true <->
   scaledWidth (heap d o) <= rectWidth (safeRectOf c) /\
   scaledHeight (heap d o) <= rectHeight (safeRectOf c)) /\
  (snd (arrangeObjectOnCanvas (Some o) d) = true ->
   heap (fst (arrangeObjectOnCanvas (Some o) d)) o =
   setCentered (left (safeRectOf c) + scaledWidth (heap d o) / 2)
               (top (safeRectOf c) + scaledHeight (heap d o) / 2) (heap d o)).
Proof.
  intros Hc Hv Halone.
  pose proof (freeRectsOf_alone d c o Halone) as Hfree.
  split.
  - rewrite (arrange_true_iff d c o Hc), Hfree. split.
    + intros (_ & r & [<- | []] & Hf). now apply fits_true.
    + intros H. split; [exact Hv |]. exists (safeRectOf c).
      split; [now left | now apply fits_true].
  - intros Ht.
    destruct (arrange_true_chosen d c o Hc Ht) as (_ & p & Hfind & Hheap).
    apply find_some in Hfind. destruct Hfind as [Hin _].
    apply (proj1 (sortRects_In _ _)) in Hin. rewrite Hfree in Hin.
    destruct Hin as [<- | []]. exact Hheap.
Qed.

Lemma arrangeObjectOnCanvas_alone_witness :
  snd (arrangeObjectOnCanvas (Some 0%nat) posterDesigner) = true /\
  objLeft (heap (fst (arrangeObjectOnCanvas (Some 0%nat) posterDesigner)) 0%nat)
    == 579.
Proof.
  destruct (arrangeObjectOnCanvas_alone
              posterDesigner (mkCanvas [0%nat] 2480 1748 1) 0%nat)
    as (Hiff & Hpos).
  - reflexivity.
  - vm_compute. reflexivity.
  - reflexivity.
  - assert (Ht : snd (arrangeObjectOnCanvas (Some 0%nat) posterDesigner) = true)
      by (apply Hiff; split; vm_compute; discriminate).
    split; [exact Ht |]. specialize (Hpos Ht). unfold Ref in Hpos.
    rewrite Hpos. vm_compute. reflexivity.
Defined.

(** A point of a rectangle of positive size that keeps clear of a box is not
    in the interior of the box. *)
Lemma clear_not_interior (p g : Rect) (x y : Q) :
  proper p -> inside p x y -> clearOf p g -> ~ interior g x y.
Proof.
  intros [Hpw Hph] Hin Hc Hint. unfold clearOf in Hc.
  apply degenerate_true in Hc. qsolve.
Qed.

(** X6.  The gutter under rotation.  When [arrangeObjectOnCanvas] returns [true]
    for an object whose scaled size is not negative, the centre of the
    object lies in the safe area and outside the gutter box of every other
    object of the canvas, however the objects are turned. *)
Theorem arrangeObjectOnCanvas_centre_keeps_clear
    (d : Designer) (c : Canvas) (o : Ref) :
  canvas d = Some c ->
  snd (arrangeObjectOnCanvas (Some o) d) = true ->
  0 <= scaledWidth (heap d o) -> 0 <= scaledHeight (heap d o) ->
  let d' := fst (arrangeObjectOnCanvas (Some o) d) in
  let x := fst (getCenterPoint (heap d' o)) in
  let y := snd (getCenterPoint (heap d' o)) in
  inside (safeRectOf c) x y /\
  forall other,
    In other (getUserObjects (heap d') c) -> other <> o ->
    ~ interior (gutterBox PLACEMENT_GUTTER (getBoundingRect (heap d' other)))
               x y.
Proof.
  intros Hc Ht Hw Hh. cbv zeta.
  destruct (arrange_true_slot d c o Hc Ht)
    as (p & Hp & Hproper & Hwithin & Hfits & Hx & Hy).
  destruct (arrange_keeps d o) as (_ & _ & _ & Kh & Ks). cbv zeta in Kh, Ks.
  set (d' := fst (arrangeObjectOnCanvas (Some o) d)) in *.
  apply fits_true in Hfits.
  assert (Hcentre : inside p (fst (getCenterPoint (heap d' o)))
                             (snd (getCenterPoint (heap d' o)))).
  { unfold inside, rectWidth, rectHeight in *.
    unfold Qdiv in *. change (/ 2) with (1 # 2) in *. lra. }
  split; [unfold inside, within in *; lra |].
  intros other Hother Hne. rewrite (Kh other Hne).
  apply (clear_not_interior p); [exact Hproper | exact Hcentre |].
  apply (freeRectsOf_clear d c o p p Hp (within_refl p)).
  apply blockersOf_In. split; [| exact Hne].
  apply getUserObjects_In in Hother. apply getUserObjects_In.
  destruct Hother as [H1 H2]. split; [exact H1 |].
  now rewrite (Kh other Hne) in H2.
Qed.

Lemma arrangeObjectOnCanvas_centre_keeps_clear_witness :
  let d' := fst (arrangeObjectOnCanvas (Some 1%nat) stripDesigner) in
  ~ interior (gutterBox PLACEMENT_GUTTER (getBoundingRect (heap d' 0%nat)))
             (fst (getCenterPoint (heap d' 1%nat)))
             (snd (getCenterPoint (heap d' 1%nat))).
Proof.
  cbv zeta.
  destruct (arrangeObjectOnCanvas_centre_keeps_clear
              stripDesigner sampleCanvas 1%nat) as (_ & H).
  - reflexivity.
  - vm_compute. reflexivity.
  - vm_compute. discriminate.
  - vm_compute. discriminate.
  - apply H; [vm_compute; left; reflexivity | discriminate].
Defined.

(* ------------------------------------------------------------------ *)
(** ** Where the reflow leaves the objects in the canvas list *)

(** X7.  [reflowObjectsIntoSafeArea] moves the objects it repositions to the
    end of the canvas list, in their order, and leaves the others, the
    decorations among them, in theirs: [bringBleedObjectsToFront] returns at
    once while [isRestoring] is set, in the handler of ['object:added'] and
    in the call that follows the loop alike, so that the repositioned
    objects end in front of the bleed overlays.  No other object is written,
    and [isRestoring] has its old value afterwards. *)
Theorem reflowObjectsIntoSafeArea_moves_to_front (d : Designer) (c : Canvas) :
  canvas d = Some c -> invalidSafeRect (safeRectOf c) = false ->
  let d' := fst (reflowObjectsIntoSafeArea d) in
  exists c',
    canvas d' = Some c' /\ sameSheet c c' /\
    objects c' =
      filter (fun r => negb (displaced d c r)) (objects c)
      ++ filter (displaced d c) (objects c) /\
    (forall r, displaced d c r = false -> heap d' r = heap d r) /\
    isRestoring d' = isRestoring d.
Proof.
  intros Hc Hv. cbv zeta.
  assert (Hout : outOfBoundsObjects d c = filter (displaced d c) (objects c)).
  { unfold outOfBoundsObjects, getUserObjects. apply filter_twice. }
  destruct (reflow_result d c Hc Hv) as (c' & Hc' & Hs & Ho & Hh & _ & Hr).
  exists c'. split; [exact Hc' | split; [exact Hs |]].
  split; [now rewrite <- Hout | split; [| exact Hr]].
  intros r Hd. apply Hh. rewrite Hout. intros H.
  apply filter_In in H. destruct H as [_ H]. congruence.
Qed.

Lemma reflowObjectsIntoSafeArea_moves_to_front_witness :
  match canvas (fst (reflowObjectsIntoSafeArea overlaidDesigner)) with
  | Some c' => objects c' = [0%nat; 3%nat; 1%nat]
  | None => False
  end.
Proof.
  destruct (reflowObjectsIntoSafeArea_moves_to_front
              overlaidDesigner overlaidCanvas eq_refl)
    as (c' & Hc' & _ & Ho & _).
  - vm_compute. reflexivity.
  - rewrite Hc', Ho. vm_compute. reflexivity.
Defined.

(* ------------------------------------------------------------------ *)
(** ** The two stacks of the history *)

Lemma rev_cases {A : Type} (l : list A) :
  l = [] \/ exists older x, l = older ++ [x].
Proof.
  destruct (rev l) as [| x r] eqn:E.
  - left. apply (f_equal (@rev A)) in E. now rewrite rev_involutive in E.
  - right. exists (rev r), x.
    apply (f_equal (@rev A)) in E. now rewrite rev_involutive in E.
Qed.

Lemma undo_cases (d : Designer) :
  ((List.length (undoStack d) <= 1)%nat /\ undo d = d) \/
  exists older s0 s1,
    undoStack d = older ++ [s0; s1] /\
    undo d = restoreState s0
               (setRedoStack (redoStack d ++ [s1])
                             (setUndoStack (older ++ [s0]) d)).
Proof.
  destruct (rev_cases (undoStack d)) as [E | (l1 & s1 & E)].
  - left. rewrite E. split; [simpl; lia | apply undo_short; rewrite E; simpl; lia].
  - destruct (rev_cases l1) as [E1 | (older & s0 & E1)]; subst l1.
    + left. rewrite E. split; [simpl; lia | apply undo_short; rewrite E; simpl; lia].
    + right. exists older, s0, s1. rewrite <- app_assoc in E. simpl in E.
      split; [exact E | now apply undo_two].
Qed.

Lemma redo_cases (d : Designer) :
  (redoStack d = [] /\ redo d = d) \/
  exists older s,
    redoStack d = older ++ [s] /\
    redo d = restoreState s
               (setUndoStack (undoStack d ++ [s]) (setRedoStack older d)).
Proof.
  destruct (rev_cases (redoStack d)) as [E | (older & s & E)].
  - left. split; [exact E |]. unfold redo. now rewrite E.
  - right. exists older, s. split; [exact E | now apply redo_one].
Qed.

Lemma saveStateImmediate_cases (stringify : list FabricObject -> string)
    (d : Designer) :
  saveStateImmediate stringify d = d \/
  exists c,
    canvas d = Some c /\ isRestoring d = false /\
    saveStateImmediate stringify d =
    setRedoStack []
      (setUndoStack
         (if Nat.ltb MAX_HISTORY
               (List.length (undoStack d ++ [serialized stringify (heap d) c]))
          then tl (undoStack d ++ [serialized stringify (heap d) c])
          else undoStack d ++ [serialized stringify (heap d) c]) d).
Proof.
  destruct (canvas d) as [c |] eqn:Hc;
    [| left; unfold saveStateImmediate; now rewrite Hc].
  destruct (isRestoring d) eqn:Hr;
    [left; now apply saveStateImmediate_restoring |].
  destruct (String.eqb_spec
              (match top_of (undoStack d) with Some t => t | None => "" end)
              (serialized stringify (heap d) c)) as [E | E];
    destruct (top_of (undoStack d)) as [t |] eqn:Et.
  - left. apply (saveStateImmediate_same stringify d c Hc). now rewrite Et, E.
  - right. exists c. split; [reflexivity | split; [reflexivity |]].
    apply saveStateImmediate_differs; [exact Hc | exact Hr | now rewrite Et].
  - right. exists c. split; [reflexivity | split; [reflexivity |]].
    apply saveStateImmediate_differs; [exact Hc | exact Hr |].
    rewrite Et. congruence.
  - right. exists c. split; [reflexivity | split; [reflexivity |]].
    apply saveStateImmediate_differs; [exact Hc | exact Hr | now rewrite Et].
Qed.

Lemma pushed_length (u : list string) (s : string) :
  (List.length u <= MAX_HISTORY)%nat ->
  (List.length (if Nat.ltb MAX_HISTORY (List.length (u ++ [s]))
                then tl (u ++ [s]) else u ++ [s]) <= MAX_HISTORY)%nat.
Proof.
  intros Hu.
  destruct (Nat.ltb_spec MAX_HISTORY (List.length (u ++ [s]))) as [H | H];
    [| exact H].
  rewrite length_app in H. cbn [List.length] in H.
  destruct u as [| a u]; cbn [app tl List.length] in *.
  - apply Nat.le_0_l.
  - rewrite length_app. cbn [List.length]. lia.
Qed.

(** X8.  The history never outgrows its bound: a capture, an undo and a redo each
    leave at most [MAX_HISTORY] snapshots on the two stacks together, and
    leave something to undo to whenever there is something to redo. *)
Theorem history_stays_bounded (stringify : list FabricObject -> string)
    (d : Designer) :
  historyBounded d ->
  historyBounded (saveStateImmediate stringify d) /\
  historyBounded (undo d) /\
  historyBounded (redo d).
Proof.
  intros [Hlen Hne]. split; [| split].
  - destruct (saveStateImmediate_cases stringify d) as [-> | (c & _ & _ & ->)];
      [split; assumption |].
    unfold historyBounded. hist_simpl.
    split; [| congruence].
    cbn [List.length]. rewrite Nat.add_0_r. apply pushed_length. lia.
  - destruct (undo_cases d) as [[_ ->] | (older & s0 & s1 & E & ->)];
      [split; assumption |].
    unfold historyBounded. hist_simpl. rewrite E in Hlen.
    rewrite !length_app in Hlen. rewrite !length_app.
    cbn [List.length] in *. split; [lia |].
    intros _. destruct older; discriminate.
  - destruct (redo_cases d) as [[_ ->] | (older & s & E & ->)];
      [split; assumption |].
    unfold historyBounded. hist_simpl. rewrite E in Hlen.
    rewrite !length_app in Hlen. rewrite !length_app.
    cbn [List.length] in *. split; [lia |].
    intros _. destruct (undoStack d); discriminate.
Qed.

Lemma history_stays_bounded_witness :
  historyBounded (undo (saveStateImmediate namesOf freshDesigner)).
Proof.
  assert (H : historyBounded freshDesigner).
  { split; [vm_compute; lia | intros H; vm_compute in H; congruence]. }
  destruct (history_stays_bounded namesOf freshDesigner H) as (H1 & _).
  destruct (history_stays_bounded namesOf _ H1) as (_ & H2 & _).
  exact H2.
Defined.

(** X9.  [undo] and [redo] undo each other on the two stacks: [redo] after an
    [undo] that had something to undo, and [undo] after a [redo] that had
    something to redo, put both stacks back as they were. *)
Theorem undo_redo_inverse (d : Designer) :
  ((2 <= List.length (undoStack d))%nat ->
   undoStack (redo (undo d)) = undoStack d /\
   redoStack (redo (undo d)) = redoStack d) /\
  (redoStack d <> [] -> undoStack d <> [] ->
   undoStack (undo (redo d)) = undoStack d /\
   redoStack (undo (redo d)) = redoStack d).
Proof.
  split.
  - intros Hlen.
    destruct (undo_cases d) as [[H _] | (older & s0 & s1 & E & Eu)]; [lia |].
    rewrite Eu.
    rewrite (redo_one _ (redoStack d) s1) by reflexivity.
    hist_simpl. rewrite E, <- app_assoc. split; reflexivity.
  - intros Hr Hu.
    destruct (redo_cases d) as [[H _] | (older & s & E & Er)]; [contradiction |].
    rewrite Er.
    destruct (rev_cases (undoStack d)) as [H | (older' & s0 & E')];
      [contradiction |].
    rewrite (undo_two _ older' s0 s)
      by (hist_simpl; rewrite E', <- app_assoc; reflexivity).
    hist_simpl. rewrite E, E'. split; reflexivity.
Qed.

Lemma undo_redo_inverse_witness :
  undoStack (redo (undo (captureAll namesOf (map sceneNumber (seq 1 3))
                                    freshDesigner))) =
  ["a"; "aa"; "aaa"]%string.
Proof.
  destruct (undo_redo_inverse
              (captureAll namesOf (map sceneNumber (seq 1 3)) freshDesigner))
    as (H & _).
  destruct H as (H & _); [vm_compute; lia |].
  rewrite H. vm_compute. reflexivity.
Defined.

(** X10.  A capture repeated at once changes nothing more: the second call finds
    on top of the undo stack what the first one has pushed. *)
Theorem saveStateImmediate_idempotent
    (stringify : list FabricObject -> string) (d : Designer) :
  saveStateImmediate stringify (saveStateImmediate stringify d) =
  saveStateImmediate stringify d.
Proof.
  destruct (saveStateImmediate_cases stringify d) as [E | (c & Hc & Hr & E)].
  - now rewrite !E.
  - rewrite E. set (s := serialized stringify (heap d) c).
    apply (saveStateImmediate_same stringify _ c); [exact Hc |].
    hist_simpl. fold s.
    destruct (Nat.ltb_spec MAX_HISTORY (List.length (undoStack d ++ [s]))) as [H | H].
    + destruct (undoStack d) as [| a u];
        [cbn in H; unfold MAX_HISTORY in H; lia |].
      cbn [app tl]. apply top_of_app.
    + apply top_of_app.
Qed.

(** X11.  Whenever [undo] or [redo] does something, the snapshot it hands to
    [loadFromJSON] is the one it leaves on top of the undo stack; in
    particular neither leaves the undo stack empty. *)
Theorem undo_redo_load_the_top (d : Designer) :
  (undo d = d \/
   exists s, top_of (undoStack (undo d)) = Some s /\
             loading (undo d) = loading d ++ [s] /\
             isRestoring (undo d) = true) /\
  (redo d = d \/
   exists s, top_of (undoStack (redo d)) = Some s /\
             loading (redo d) = loading d ++ [s] /\
             isRestoring (redo d) = true).
Proof.
  split.
  - destruct (undo_cases d) as [[_ E] | (older & s0 & s1 & _ & E)];
      [now left | right].
    exists s0. rewrite E. hist_simpl. now rewrite top_of_app.
  - destruct (redo_cases d) as [[_ E] | (older & s & _ & E)];
      [now left | right].
    exists s. rewrite E. hist_simpl. now rewrite top_of_app.
Qed.

(* ------------------------------------------------------------------ *)
(** ** The flag after [fillSheet] *)

Lemma canvasAdd_busy (obj : Ref) (d : Designer) :
  busy d -> busy (canvasAdd obj d).
Proof.
  intros (c & Hc & Hr). rewrite (canvasAdd_restoring obj d c Hc Hr).
  eexists. split; [reflexivity | exact Hr].
Qed.

Lemma canvasRemove_busy (obj : Ref) (d : Designer) :
  busy d -> busy (canvasRemove obj d).
Proof.
  intros (c & Hc & Hr).
  destruct (canvasRemove_restoring obj d c Hc Hr) as (c' & Hc' & _ & _ & _ & _ & Hr').
  exists c'. split; assumption.
Qed.

Lemma arrange_busy (o : Ref) (d : Designer) :
  busy d -> busy (fst (arrangeObjectOnCanvas (Some o) d)).
Proof.
  intros (c & Hc & Hr).
  destruct (arrange_keeps d o) as (Kc & _ & Kr & _). cbv zeta in *.
  exists c. split; congruence.
Qed.

Lemma arrangeOriginal_busy (acc : Designer * list Ref * list Ref) (obj : Ref) :
  busy (fst (fst acc)) -> busy (fst (fst (arrangeOriginal acc obj))).
Proof.
  destruct acc as [[d placed] failed]. cbn [fst]. intros H.
  unfold arrangeOriginal.
  pose proof (arrange_busy obj _ (canvasAdd_busy obj d H)) as H'.
  destruct (arrangeObjectOnCanvas (Some obj) (canvasAdd obj d)) as [d' [|]];
    exact H'.
Qed.

Lemma arrangeOriginals_busy (userObjects : list Ref) (d : Designer) :
  busy d -> busy (fst (fst (arrangeOriginals userObjects d))).
Proof.
  intros H. unfold arrangeOriginals.
  assert (H1 : busy (fold_left (fun d obj => canvasRemove obj d) userObjects d)).
  { clear - H. revert d H.
    induction userObjects as [| a l IH]; intros d H; [exact H |].
    cbn [fold_left]. apply IH. now apply canvasRemove_busy. }
  generalize dependent (fold_left (fun d obj => canvasRemove obj d) userObjects d).
  intros d1 H1.
  assert (G : forall l acc, busy (fst (fst acc)) ->
                busy (fst (fst (fold_left arrangeOriginal l acc)))).
  { induction l as [| a l IH]; intros acc Ha; [exact Ha |].
    cbn [fold_left]. apply IH. now apply arrangeOriginal_busy. }
  now apply G.
Qed.

Section FillSheetFlag.

Variable clone : FabricObject -> option FabricObject.

Lemma cloneOne_busy (acc : Designer * nat) (base : Ref) :
  busy (fst acc) -> busy (fst (cloneOne clone acc base)).
Proof.
  destruct acc as [d n]. cbn [fst]. intros H. unfold cloneOne.
  destruct (clone (heap d base)) as [cloned |]; [| exact H].
  unfold allocate.
  set (d1 := setNextRef (S (nextRef d))
                        (setHeap (store (nextRef d) cloned (heap d)) d)).
  assert (H1 : busy d1) by exact H.
  pose proof (arrange_busy (nextRef d) _ (canvasAdd_busy (nextRef d) d1 H1))
    as H2.
  destruct (arrangeObjectOnCanvas (Some (nextRef d)) (canvasAdd (nextRef d) d1))
    as [d2 [|]]; cbn [fst] in *; [exact H2 |].
  now apply canvasRemove_busy.
Qed.

Lemma fillPass_busy (placedOriginals : list Ref) (d : Designer) :
  busy d -> busy (fst (fillPass clone placedOriginals d)).
Proof.
  intros H. unfold fillPass.
  assert (G : forall l acc, busy (fst acc) ->
                busy (fst (fold_left (cloneOne clone) l acc))).
  { induction l as [| a l IH]; intros acc Ha; [exact Ha |].
    cbn [fold_left]. apply IH. now apply cloneOne_busy. }
  now apply G.
Qed.

Lemma fillLoop_busy (fuel : nat) (placedOriginals : list Ref) :
  forall d d', busy d -> fillLoop clone fuel placedOriginals d = Some d' ->
               busy d'.
Proof.
  induction fuel as [| fuel IH]; intros d d' H E; [discriminate |].
  cbn [fillLoop] in E.
  pose proof (fillPass_busy placedOriginals d H) as H1.
  destruct (fillPass clone placedOriginals d) as [d1 n]. cbn [fst] in H1.
  destruct (Nat.ltb 0 n); [now apply (IH d1) | now injection E as <-].
Qed.

(** The [finally] block of [fillSheet], run with the flag set: its call of
    [bringBleedObjectsToFront] comes before the flag is reset and does
    nothing, so that the canvas is left as it is. *)
Lemma fillSheetFinally_busy (d : Designer) :
  busy d ->
  isRestoring (fillSheetFinally d) = false /\
  saveStateTimeout (fillSheetFinally d) = true /\
  canvas (fillSheetFinally d) = canvas d.
Proof.
  intros (c & Hc & Hr). unfold fillSheetFinally.
  rewrite (bringBleedObjectsToFront_restoring d Hr).
  unfold saveState. hist_simpl. rewrite Hc. hist_simpl.
  rewrite Hc. repeat split.
Qed.

(** X12.  [fillSheet] ends with [isRestoring] reset and a capture scheduled,
    whatever the flag was when it began and whatever has been placed: its
    [finally] block runs on every path on which something was on the sheet.
    With nothing on the sheet it returns at once and changes nothing. *)
Theorem fillSheet_clears_flag (fuel : nat) (d d' : Designer) :
  fillSheet clone fuel d = Some d' ->
  (forall c, canvas d = Some c -> getUserObjects (heap d) c = [] -> d' = d) /\
  (forall c, canvas d = Some c -> getUserObjects (heap d) c <> [] ->
     isRestoring d' = false /\ saveStateTimeout d' = true /\
     canvas d' <> None).
Proof.
  intros E. split; intros c Hc Hu; unfold fillSheet in E; rewrite Hc in E.
  - rewrite Hu in E. cbn in E. now injection E as <-.
  - destruct (getUserObjects (heap d) c) as [| o l] eqn:Eu; [congruence |].
    cbn [List.length Nat.eqb] in E.
    assert (H1 : busy (setIsRestoring true d)) by (exists c; auto).
    pose proof (arrangeOriginals_busy (o :: l) _ H1) as H2.
    destruct (arrangeOriginals (o :: l) (setIsRestoring true d))
      as [[d1 placed] failed].
    cbn [fst] in H2.
    assert (G : forall d2, busy d2 -> Some (fillSheetFinally d2) = Some d' ->
                isRestoring d' = false /\ saveStateTimeout d' = true /\
                canvas d' <> None).
    { intros d2 Hb [= <-].
      destruct (fillSheetFinally_busy d2 Hb) as (F1 & F2 & F3).
      split; [exact F1 | split; [exact F2 |]].
      rewrite F3. destruct Hb as (c2 & -> & _). discriminate. }
    destruct (Nat.ltb 0 (List.length placed)); [| now apply (G d1)].
    destruct (fillLoop clone fuel placed d1) as [d2 |] eqn:El; [| discriminate].
    apply (G d2); [| exact E].
    now apply (fillLoop_busy fuel placed d1).
Qed.

End FillSheetFlag.

Lemma fillSheet_clears_flag_witness :
  exists d', fillSheet sampleClone 4 posterDesigner = Some d' /\
             isRestoring d' = false /\ saveStateTimeout d' = true.
Proof.
  destruct (fillSheet sampleClone 4 posterDesigner) as [d' |] eqn:E;
    [| vm_compute in E; discriminate].
  exists d'. split; [reflexivity |].
  destruct (fillSheet_clears_flag sampleClone 4 posterDesigner d' E) as (_ & H).
  destruct (H (mkCanvas [0%nat] 2480 1748 1) eq_refl) as (H1 & H2 & _).
  - vm_compute. discriminate.
  - split; assumption.
Defined.
